(** * DocumentStore: the document state engine of the block editor

    A shallow embedding of [DocumentStore] (the observable store that owns
    the block map, the ordering index, selection and focus, the undo/redo
    history and the serialisation of a document), and the properties of
    its mutation, history and notification operations.

    Conventions of the embedding.
    - A JavaScript object with optional keys is a record of [option]
      fields ([None]: the key is absent); the open part of a block is a
      finite map of extra fields, merged by object spread.
    - Identities, kinds and contents are strings, as the JSDoc of the
      store documents them; the empty string is the falsy string.
    - Numbers that the store uses as positions, cursors and timestamps
      are integers ([Z]).
    - [Date.now()] and [Math.random()] are inputs: every operation takes
      an [Env] with the clock readings and the generated identity the
      call would obtain.
    - Observers are callbacks that read the state and either return or
      throw; they do not call back into the store. *)

From Stdlib Require Import ZArith Lia List String Permutation.
From stdpp Require Import base gmap strings list fin_maps.

Local Open Scope string_scope.
Local Open Scope list_scope.
Local Open Scope Z_scope.

(** ** JavaScript array operations used by the store *)

Module JsArray.
Section Ops.
Context {A : Type}.

(** [ToIntegerOrInfinity] followed by the relative-index clamp that
    [slice] and [splice] apply to their start and end arguments. *)
Definition clampIndex (i : Z) (len : nat) : nat :=
  if i <? 0 then Z.to_nat (Z.max (Z.of_nat len + i) 0)
  else Nat.min (Z.to_nat i) len.

(** [arr.slice(0, end)] *)
Definition slice0 (e : Z) (l : list A) : list A :=
  take (clampIndex e (length l)) l.

(** [arr.splice(start, 1)]: the array after the call. *)
Definition spliceDelete1 (start : Z) (l : list A) : list A :=
  let k := clampIndex start (length l) in
  take k l ++ drop (S k) l.

(** [arr.splice(start, 0, x)]: the array after the call. *)
Definition spliceInsert (start : Z) (x : A) (l : list A) : list A :=
  let k := clampIndex start (length l) in
  take k l ++ x :: drop k l.

(** [arr.push(x)] *)
Definition push (x : A) (l : list A) : list A := l ++ [x].

(** [arr.shift()]: the array after the call. *)
Definition shift (l : list A) : list A := tail l.

(** [arr[i]]: [None] is [undefined]. *)
Definition at_ (i : Z) (l : list A) : option A :=
  if i <? 0 then None else l !! Z.to_nat i.

Context `{EqDecision A}.

(** [arr.indexOf(x)] *)
Fixpoint indexOfFrom (x : A) (l : list A) (i : Z) : Z :=
  match l with
  | [] => -1
  | y :: r => if decide (y = x) then i else indexOfFrom x r (i + 1)
  end.

Definition indexOf (x : A) (l : list A) : Z := indexOfFrom x l 0.

(** [arr.filter(id => id !== x)] *)
Definition without (x : A) (l : list A) : list A :=
  filter (fun y => y <> x) l.
End Ops.
End JsArray.
Import JsArray.

(** ** Truthiness and the [||] default *)

Definition truthyString (s : string) : bool :=
  if decide (s = EmptyString) then false else true.

Definition truthyNumber (z : Z) : bool := negb (z =? 0).

(** [field || fallback] for an optional string field. *)
Definition orString (o : option string) (d : string) : string :=
  match o with
  | Some s => if truthyString s then s else d
  | None => d
  end.

(** [field || fallback] for an optional number field. *)
Definition orNumber (o : option Z) (d : Z) : Z :=
  match o with
  | Some z => if truthyNumber z then z else d
  | None => d
  end.

(** [field || fallback] for an optional object field (objects are truthy). *)
Definition orObject {A} (o : option A) (d : A) : A :=
  match o with Some a => a | None => d end.

(** The effect of [{ k: base, ...obj }] on key [k]. *)
Definition spreadOver {A} (o : option A) (base : A) : A :=
  match o with Some a => a | None => base end.

(** ** Data model *)

(** A stored block: the six fields the store always sets plus whatever
    else the caller's object carried. *)
Record Block := mkBlock {
  b_id : string;
  b_type : string;
  b_content : string;
  b_attributes : gmap string string;
  b_createdAt : Z;
  b_updatedAt : Z;
  b_extra : gmap string string
}.

(** A caller-supplied object of block fields ([blockData], [updates], an
    element of [data.blocks]). *)
Record BlockData := mkBlockData {
  d_id : option string;
  d_type : option string;
  d_content : option string;
  d_attributes : option (gmap string string);
  d_createdAt : option Z;
  d_updatedAt : option Z;
  d_extra : gmap string string
}.

Inductive MetaValue :=
| MNull
| MString (s : string)
| MTags (tags : list string).

(** What one [saveToHistory] call records.  [OtherData] stands for an
    entry whose action is none of the four the replay knows. *)
Inductive HistoryData :=
| AddBlockData (blockId : string) (block : Block)
| RemoveBlockData (blockId : string) (block : Block)
| UpdateBlockData (blockId : string) (oldBlock newBlock : Block)
| MoveBlockData (blockId : string) (from to : Z)
| OtherData (action : string).

Definition action (d : HistoryData) : string :=
  match d with
  | AddBlockData _ _ => "add-block"
  | RemoveBlockData _ _ => "remove-block"
  | UpdateBlockData _ _ _ => "update-block"
  | MoveBlockData _ _ _ => "move-block"
  | OtherData a => a
  end.

Record HistoryItem := mkHistoryItem {
  data : HistoryData;
  timestamp : Z
}.

(** [this.state] *)
Record State := mkState {
  documentId : string;
  title : string;
  version : string;
  createdAt : Z;
  updatedAt : Z;
  blocks : gmap string Block;
  blockOrder : list string;
  selectedBlocks : list string;
  focusedBlock : option string;
  history : list HistoryItem;
  historyIndex : Z;
  maxHistorySize : Z;
  editMode : bool;
  readOnly : bool;
  metadata : gmap string MetaValue
}.

(** The plain record handled by [serialize] and [deserialize]. *)
Record DocData := mkDocData {
  doc_documentId : option string;
  doc_title : option string;
  doc_version : option string;
  doc_createdAt : option Z;
  doc_updatedAt : option Z;
  doc_metadata : option (gmap string MetaValue);
  doc_blocks : option (list BlockData)
}.

(** The change description handed to observers. *)
Inductive Change :=
| BlockAdded (blockId : string) (block : Block)
| BlockRemoved (blockId : string)
| BlockUpdated (blockId : string) (updates : BlockData)
| BlockMoved (blockId : string) (from to : Z)
| SelectionChanged (selected : list string)
| FocusChanged (focused : string)
| Undone (historyItem : option HistoryItem)
| Redone (historyItem : option HistoryItem)
| DocumentLoaded (d : DocData)
| MetadataUpdated (m : gmap string MetaValue)
| TitleUpdated (t : string)
| DocumentCleared
| NoChange.

(** How a call completes. *)
Inductive Completion (A : Type) :=
| Normal (a : A)
| Throw (err : string).
Arguments Normal {A} a.
Arguments Throw {A} err.

(** An observer: the key under which the subscriber set holds it and what
    its callback does when called. *)
Record Subscriber := mkSubscriber {
  sub_key : nat;
  callback : State -> Change -> Completion unit
}.

(** What a notification cycle does to the outside world. *)
Inductive Event :=
| Called (key : nat) (st : State) (ch : Change)
| ConsoleError (err : string).

(** The store object: [this.state] and the fields beside it, with the
    record of the effects performed so far. *)
Record Store := mkStore {
  state : State;
  subscribers : list Subscriber;
  autoSaveTimeout : option Z;
  autoSaveDelay : Z;
  effects : list Event
}.

(** The readings an operation takes from the clock and the generator. *)
Record Env := mkEnv {
  generatedId : string;
  nowCreated : Z;
  nowUpdated : Z;
  nowHistory : Z;
  nowNotify : Z
}.

(** ** Field updates of [this.state] *)

Definition set_documentId (v : string) (st : State) : State :=
  mkState v (title st) (version st) (createdAt st) (updatedAt st)
    (blocks st) (blockOrder st) (selectedBlocks st) (focusedBlock st)
    (history st) (historyIndex st) (maxHistorySize st) (editMode st)
    (readOnly st) (metadata st).

Definition set_title (v : string) (st : State) : State :=
  mkState (documentId st) v (version st) (createdAt st) (updatedAt st)
    (blocks st) (blockOrder st) (selectedBlocks st) (focusedBlock st)
    (history st) (historyIndex st) (maxHistorySize st) (editMode st)
    (readOnly st) (metadata st).

Definition set_version (v : string) (st : State) : State :=
  mkState (documentId st) (title st) v (createdAt st) (updatedAt st)
    (blocks st) (blockOrder st) (selectedBlocks st) (focusedBlock st)
    (history st) (historyIndex st) (maxHistorySize st) (editMode st)
    (readOnly st) (metadata st).

Definition set_createdAt (v : Z) (st : State) : State :=
  mkState (documentId st) (title st) (version st) v (updatedAt st)
    (blocks st) (blockOrder st) (selectedBlocks st) (focusedBlock st)
    (history st) (historyIndex st) (maxHistorySize st) (editMode st)
    (readOnly st) (metadata st).

Definition set_updatedAt (v : Z) (st : State) : State :=
  mkState (documentId st) (title st) (version st) (createdAt st) v
    (blocks st) (blockOrder st) (selectedBlocks st) (focusedBlock st)
    (history st) (historyIndex st) (maxHistorySize st) (editMode st)
    (readOnly st) (metadata st).

Definition set_blocks (v : gmap string Block) (st : State) : State :=
  mkState (documentId st) (title st) (version st) (createdAt st)
    (updatedAt st) v (blockOrder st) (selectedBlocks st) (focusedBlock st)
    (history st) (historyIndex st) (maxHistorySize st) (editMode st)
    (readOnly st) (metadata st).

Definition set_blockOrder (v : list string) (st : State) : State :=
  mkState (documentId st) (title st) (version st) (createdAt st)
    (updatedAt st) (blocks st) v (selectedBlocks st) (focusedBlock st)
    (history st) (historyIndex st) (maxHistorySize st) (editMode st)
    (readOnly st) (metadata st).

Definition set_selectedBlocks (v : list string) (st : State) : State :=
  mkState (documentId st) (title st) (version st) (createdAt st)
    (updatedAt st) (blocks st) (blockOrder st) v (focusedBlock st)
    (history st) (historyIndex st) (maxHistorySize st) (editMode st)
    (readOnly st) (metadata st).

Definition set_focusedBlock (v : option string) (st : State) : State :=
  mkState (documentId st) (title st) (version st) (createdAt st)
    (updatedAt st) (blocks st) (blockOrder st) (selectedBlocks st) v
    (history st) (historyIndex st) (maxHistorySize st) (editMode st)
    (readOnly st) (metadata st).

Definition set_history (v : list HistoryItem) (st : State) : State :=
  mkState (documentId st) (title st) (version st) (createdAt st)
    (updatedAt st) (blocks st) (blockOrder st) (selectedBlocks st)
    (focusedBlock st) v (historyIndex st) (maxHistorySize st) (editMode st)
    (readOnly st) (metadata st).

Definition set_historyIndex (v : Z) (st : State) : State :=
  mkState (documentId st) (title st) (version st) (createdAt st)
    (updatedAt st) (blocks st) (blockOrder st) (selectedBlocks st)
    (focusedBlock st) (history st) v (maxHistorySize st) (editMode st)
    (readOnly st) (metadata st).

Definition set_metadata (v : gmap string MetaValue) (st : State) : State :=
  mkState (documentId st) (title st) (version st) (createdAt st)
    (updatedAt st) (blocks st) (blockOrder st) (selectedBlocks st)
    (focusedBlock st) (history st) (historyIndex st) (maxHistorySize st)
    (editMode st) (readOnly st) v.

Definition with_state (st : State) (s : Store) : Store :=
  mkStore st (subscribers s) (autoSaveTimeout s) (autoSaveDelay s)
    (effects s).

(** ** Construction *)

Definition defaultMetadata : gmap string MetaValue :=
  <["configuration" := MNull]>
    (<["subsystem" := MNull]>
       (<["author" := MNull]> (<["tags" := MTags []]> ∅))).

(** [new DocumentStore()] (the first construction of the singleton). *)
Definition newStore (e : Env) : Store :=
  {| state :=
       {| documentId := generatedId e;
          title := "Untitled Document";
          version := "1.0.0";
          createdAt := nowCreated e;
          updatedAt := nowUpdated e;
          blocks := ∅;
          blockOrder := [];
          selectedBlocks := [];
          focusedBlock := None;
          history := [];
          historyIndex := -1;
          maxHistorySize := 50;
          editMode := false;
          readOnly := false;
          metadata := defaultMetadata |};
     subscribers := [];
     autoSaveTimeout := None;
     autoSaveDelay := 2000;
     effects := [] |}.

(** ** Observers and the notification cycle *)

(** Computations that perform effects and may throw. *)
Definition Eff (A : Type) : Type := list Event -> Completion A * list Event.

Definition ret {A} (a : A) : Eff A := fun log => (Normal a, log).

Definition bind {A B} (m : Eff A) (k : A -> Eff B) : Eff B :=
  fun log =>
    match m log with
    | (Normal a, log') => k a log'
    | (Throw err, log') => (Throw err, log')
    end.

(** [try { body } catch (error) { handler(error) }] *)
Definition tryCatch {A} (body : Eff A) (handler : string -> Eff A) : Eff A :=
  fun log =>
    match body log with
    | (Normal a, log') => (Normal a, log')
    | (Throw err, log') => handler err log'
    end.

(** [collection.forEach(body)]: an exception leaving [body] ends the loop. *)
Fixpoint forEach {A} (body : A -> Eff unit) (l : list A) : Eff unit :=
  match l with
  | [] => ret tt
  | x :: rest => bind (body x) (fun _ => forEach body rest)
  end.

(** [callback(this.state, changes)] *)
Definition invoke (sub : Subscriber) (st : State) (ch : Change) : Eff unit :=
  fun log => (callback sub st ch, log ++ [Called (sub_key sub) st ch]).

(** [console.error('Error in subscriber callback:', error)] *)
Definition consoleError (err : string) : Eff unit :=
  fun log => (Normal tt, log ++ [ConsoleError err]).

Definition notifySubscribers (st : State) (ch : Change)
    (subs : list Subscriber) : Eff unit :=
  forEach (fun sub => tryCatch (invoke sub st ch) consoleError) subs.

(** [scheduleAutoSave()]: any pending timer is cancelled and a new one is
    armed with the store's delay. *)
Definition scheduleAutoSave (s : Store) : Store :=
  mkStore (state s) (subscribers s) (Some (autoSaveDelay s))
    (autoSaveDelay s) (effects s).

(** [notify(changes)], with the way the call completes;
    [scheduleAutoSave()] is reached when the loop completes normally. *)
Definition notify (e : Env) (changes : Change) (s : Store)
    : Completion unit * Store :=
  let st := set_updatedAt (nowNotify e) (state s) in
  let r := notifySubscribers st changes (subscribers s) (effects s) in
  (fst r,
   mkStore st (subscribers s)
     (match fst r with
      | Normal _ => autoSaveTimeout (scheduleAutoSave s)
      | Throw _ => autoSaveTimeout s
      end)
     (autoSaveDelay s) (snd r)).

(** The store after [notify(changes)]. *)
Definition notified (e : Env) (changes : Change) (s : Store) : Store :=
  snd (notify e changes s).

(** [subscribe(callback)]: a set holds a callback once. *)
Definition subscribe (sub : Subscriber) (s : Store) : Store :=
  if existsb (fun x => Nat.eqb (sub_key x) (sub_key sub)) (subscribers s)
  then s
  else mkStore (state s) (subscribers s ++ [sub]) (autoSaveTimeout s)
         (autoSaveDelay s) (effects s).

(** The function [subscribe] returns. *)
Definition unsubscribe (key : nat) (s : Store) : Store :=
  mkStore (state s)
    (List.filter (fun x => negb (Nat.eqb (sub_key x) key)) (subscribers s))
    (autoSaveTimeout s) (autoSaveDelay s) (effects s).

(** ** History recording *)

(** [saveToHistory(action, data)] on [this.state]; [now] is the reading
    of the clock for the entry's timestamp. *)
Definition saveToHistory (now : Z) (d : HistoryData) (st : State) : State :=
  let truncated := slice0 (historyIndex st + 1) (history st) in
  let pushed := push (mkHistoryItem d now) truncated in
  if maxHistorySize st <? Z.of_nat (length pushed)
  then set_history (shift pushed) st
  else set_historyIndex (historyIndex st + 1) (set_history pushed st).

(** ** Block operations *)

(** The block record [addBlock] builds: defaults, then the spread of the
    caller's object over them. *)
Definition buildBlock (e : Env) (blockId : string) (blockData : BlockData)
    : Block :=
  {| b_id := spreadOver (d_id blockData) blockId;
     b_type :=
       spreadOver (d_type blockData) (orString (d_type blockData) "text-block");
     b_content :=
       spreadOver (d_content blockData)
         (orString (d_content blockData) EmptyString);
     b_attributes :=
       spreadOver (d_attributes blockData)
         (orObject (d_attributes blockData) ∅);
     b_createdAt := spreadOver (d_createdAt blockData) (nowCreated e);
     b_updatedAt := spreadOver (d_updatedAt blockData) (nowUpdated e);
     b_extra := d_extra blockData |}.

(** The identity [addBlock] uses: the caller's when truthy, else the
    generated one. *)
Definition chooseBlockId (e : Env) (blockData : BlockData) : string :=
  orString (d_id blockData) (generatedId e).

(** [addBlock(blockData, position = null)] *)
Definition addBlock (e : Env) (blockData : BlockData) (position : option Z)
    (s : Store) : string * Store :=
  let blockId := chooseBlockId e blockData in
  let block := buildBlock e blockId blockData in
  let st1 := set_blocks (<[blockId := block]> (blocks (state s))) (state s) in
  let order := blockOrder st1 in
  let st2 :=
    set_blockOrder
      (match position with
       | Some p =>
           if (0 <=? p) && (p <=? Z.of_nat (length order))
           then spliceInsert p blockId order
           else push blockId order
       | None => push blockId order
       end) st1 in
  let st3 := saveToHistory (nowHistory e) (AddBlockData blockId block) st2 in
  (blockId, notified e (BlockAdded blockId block) (with_state st3 s)).

(** [removeBlock(blockId)] *)
Definition removeBlock (e : Env) (blockId : string) (s : Store)
    : bool * Store :=
  match blocks (state s) !! blockId with
  | None => (false, s)
  | Some block =>
      let st1 := set_blocks (delete blockId (blocks (state s))) (state s) in
      let st2 := set_blockOrder (without blockId (blockOrder st1)) st1 in
      let st3 :=
        set_selectedBlocks (without blockId (selectedBlocks st2)) st2 in
      let st4 :=
        if decide (focusedBlock st3 = Some blockId)
        then set_focusedBlock None st3
        else st3 in
      let st5 :=
        saveToHistory (nowHistory e) (RemoveBlockData blockId block) st4 in
      (true, notified e (BlockRemoved blockId) (with_state st5 s))
  end.

(** [{ ...block, ...updates }] *)
Definition mergeBlock (block : Block) (updates : BlockData) : Block :=
  {| b_id := spreadOver (d_id updates) (b_id block);
     b_type := spreadOver (d_type updates) (b_type block);
     b_content := spreadOver (d_content updates) (b_content block);
     b_attributes := spreadOver (d_attributes updates) (b_attributes block);
     b_createdAt := spreadOver (d_createdAt updates) (b_createdAt block);
     b_updatedAt := spreadOver (d_updatedAt updates) (b_updatedAt block);
     b_extra := d_extra updates ∪ b_extra block |}.

Definition set_b_updatedAt (v : Z) (b : Block) : Block :=
  mkBlock (b_id b) (b_type b) (b_content b) (b_attributes b) (b_createdAt b)
    v (b_extra b).

(** [updateBlock(blockId, updates)] *)
Definition updateBlock (e : Env) (blockId : string) (updates : BlockData)
    (s : Store) : bool * Store :=
  match blocks (state s) !! blockId with
  | None => (false, s)
  | Some block =>
      let oldBlock := block in
      let updatedBlock :=
        set_b_updatedAt (nowUpdated e) (mergeBlock block updates) in
      let st1 :=
        set_blocks (<[blockId := updatedBlock]> (blocks (state s)))
          (state s) in
      let st2 :=
        saveToHistory (nowHistory e)
          (UpdateBlockData blockId oldBlock updatedBlock) st1 in
      (true, notified e (BlockUpdated blockId updates) (with_state st2 s))
  end.

(** [getBlock(blockId)] *)
Definition getBlock (blockId : string) (s : Store) : option Block :=
  blocks (state s) !! blockId.

(** [getBlocks()] on [this.state]: the blocks in index order, identities
    without a stored block skipped. *)
Definition orderedBlocks (st : State) : list Block :=
  omap (fun id => blocks st !! id) (blockOrder st).

Definition getBlocks (s : Store) : list Block := orderedBlocks (state s).

(** [moveBlock(blockId, newPosition)] *)
Definition moveBlock (e : Env) (blockId : string) (newPosition : Z)
    (s : Store) : bool * Store :=
  let currentIndex := indexOf blockId (blockOrder (state s)) in
  if currentIndex =? -1 then (false, s)
  else
    let st1 :=
      set_blockOrder (spliceDelete1 currentIndex (blockOrder (state s)))
        (state s) in
    let st2 :=
      set_blockOrder (spliceInsert newPosition blockId (blockOrder st1))
        st1 in
    let st3 :=
      saveToHistory (nowHistory e)
        (MoveBlockData blockId currentIndex newPosition) st2 in
    (true,
     notified e (BlockMoved blockId currentIndex newPosition)
       (with_state st3 s)).

(** ** Selection and focus *)

(** [set.add(x)] on a set kept in insertion order. *)
Definition setAdd (x : string) (l : list string) : list string :=
  if decide (x ∈ l) then l else l ++ [x].

(** [selectBlock(blockId, multiSelect = false)] *)
Definition selectBlock (e : Env) (blockId : string) (multiSelect : bool)
    (s : Store) : Store :=
  let st1 :=
    if multiSelect then state s else set_selectedBlocks [] (state s) in
  let st2 := set_selectedBlocks (setAdd blockId (selectedBlocks st1)) st1 in
  notified e (SelectionChanged (selectedBlocks st2)) (with_state st2 s).

(** [deselectBlock(blockId)] *)
Definition deselectBlock (e : Env) (blockId : string) (s : Store) : Store :=
  let st1 :=
    set_selectedBlocks (without blockId (selectedBlocks (state s)))
      (state s) in
  notified e (SelectionChanged (selectedBlocks st1)) (with_state st1 s).

(** [clearSelection()] *)
Definition clearSelection (e : Env) (s : Store) : Store :=
  notified e (SelectionChanged [])
    (with_state (set_selectedBlocks [] (state s)) s).

(** [focusBlock(blockId)] *)
Definition focusBlock (e : Env) (blockId : string) (s : Store) : Store :=
  notified e (FocusChanged blockId)
    (with_state (set_focusedBlock (Some blockId) (state s)) s).

(** ** Undo and redo *)

(** The [switch] of [applyHistoryItem] on an entry's action. *)
Definition replay (item : HistoryItem) (reverse : bool) (st : State) : State :=
  match data item with
  | AddBlockData blockId block =>
      if reverse
      then set_blockOrder (without blockId (blockOrder st))
             (set_blocks (delete blockId (blocks st)) st)
      else set_blockOrder (push blockId (blockOrder st))
             (set_blocks (<[blockId := block]> (blocks st)) st)
  | RemoveBlockData blockId block =>
      if reverse
      then set_blockOrder (push blockId (blockOrder st))
             (set_blocks (<[blockId := block]> (blocks st)) st)
      else set_blockOrder (without blockId (blockOrder st))
             (set_blocks (delete blockId (blocks st)) st)
  | UpdateBlockData blockId oldBlock newBlock =>
      if reverse
      then set_blocks (<[blockId := oldBlock]> (blocks st)) st
      else set_blocks (<[blockId := newBlock]> (blocks st)) st
  | MoveBlockData blockId from to =>
      let currentIndex := indexOf blockId (blockOrder st) in
      let removed := spliceDelete1 currentIndex (blockOrder st) in
      set_blockOrder
        (spliceInsert (if reverse then from else to) blockId removed) st
  | OtherData _ => st
  end.

(** [applyHistoryItem(historyItem, reverse)] on [this.state].  Reading
    the fields of an undefined item throws. *)
Definition applyHistoryItem (historyItem : option HistoryItem)
    (reverse : bool) (st : State) : Completion State :=
  match historyItem with
  | None => Throw "TypeError"
  | Some item => Normal (replay item reverse st)
  end.

(** [undo()]: how the call completes and the store it leaves. *)
Definition undo (e : Env) (s : Store) : Completion bool * Store :=
  if historyIndex (state s) <? 0 then (Normal false, s)
  else
    let historyItem := at_ (historyIndex (state s)) (history (state s)) in
    match applyHistoryItem historyItem true (state s) with
    | Throw err => (Throw err, s)
    | Normal st1 =>
        let st2 := set_historyIndex (historyIndex st1 - 1) st1 in
        (Normal true, notified e (Undone historyItem) (with_state st2 s))
    end.

(** [redo()]: how the call completes and the store it leaves. *)
Definition redo (e : Env) (s : Store) : Completion bool * Store :=
  if Z.of_nat (length (history (state s))) - 1 <=? historyIndex (state s)
  then (Normal false, s)
  else
    let st1 := set_historyIndex (historyIndex (state s) + 1) (state s) in
    let historyItem := at_ (historyIndex st1) (history st1) in
    match applyHistoryItem historyItem false st1 with
    | Throw err => (Throw err, with_state st1 s)
    | Normal st2 =>
        (Normal true, notified e (Redone historyItem) (with_state st2 s))
    end.

(** ** Serialisation *)

(** The persistable fields of a block, as an object with all six keys. *)
Definition persistBlock (b : Block) : BlockData :=
  {| d_id := Some (b_id b);
     d_type := Some (b_type b);
     d_content := Some (b_content b);
     d_attributes := Some (b_attributes b);
     d_createdAt := Some (b_createdAt b);
     d_updatedAt := Some (b_updatedAt b);
     d_extra := ∅ |}.

(** [serialize()] on [this.state] *)
Definition serializeState (st : State) : DocData :=
  {| doc_documentId := Some (documentId st);
     doc_title := Some (title st);
     doc_version := Some (version st);
     doc_createdAt := Some (createdAt st);
     doc_updatedAt := Some (updatedAt st);
     doc_metadata := Some (metadata st);
     doc_blocks := Some (map persistBlock (orderedBlocks st)) |}.

Definition serialize (s : Store) : DocData := serializeState (state s).

(** [data.blocks.forEach(blockData => this.addBlock(blockData))]; [es i]
    are the readings of the [i]-th call. *)
Fixpoint loadBlocks (es : nat -> Env) (l : list BlockData) (s : Store)
    : Store :=
  match l with
  | [] => s
  | blockData :: rest =>
      loadBlocks (fun i => es (S i)) rest
        (snd (addBlock (es O) blockData None s))
  end.

(** [deserialize(data)] *)
Definition deserialize (e : Env) (es : nat -> Env) (d : DocData) (s : Store)
    : Store :=
  let st1 :=
    set_documentId (orString (doc_documentId d) (generatedId e)) (state s) in
  let st2 := set_title (orString (doc_title d) "Untitled Document") st1 in
  let st3 := set_version (orString (doc_version d) "1.0.0") st2 in
  let st4 := set_createdAt (orNumber (doc_createdAt d) (nowCreated e)) st3 in
  let st5 := set_updatedAt (orNumber (doc_updatedAt d) (nowUpdated e)) st4 in
  let st6 := set_metadata (orObject (doc_metadata d) ∅) st5 in
  let st7 := set_blockOrder [] (set_blocks ∅ st6) in
  let s1 :=
    match doc_blocks d with
    | Some l => loadBlocks es l (with_state st7 s)
    | None => with_state st7 s
    end in
  notified e (DocumentLoaded d) s1.

(** ** Metadata and utilities *)

(** [updateMetadata(metadata)] *)
Definition updateMetadata (e : Env) (m : gmap string MetaValue) (s : Store)
    : Store :=
  let st1 := set_metadata (m ∪ metadata (state s)) (state s) in
  notified e (MetadataUpdated (metadata st1)) (with_state st1 s).

(** [setTitle(title)] *)
Definition setTitle (e : Env) (t : string) (s : Store) : Store :=
  notified e (TitleUpdated t) (with_state (set_title t (state s)) s).

(** [clear()] *)
Definition clear (e : Env) (s : Store) : Store :=
  let st1 := set_blockOrder [] (set_blocks ∅ (state s)) in
  let st2 := set_focusedBlock None (set_selectedBlocks [] st1) in
  let st3 := set_historyIndex (-1) (set_history [] st2) in
  notified e DocumentCleared (with_state st3 s).

(** ** The public interface as a step function *)

Inductive Operation :=
| OpAddBlock (e : Env) (blockData : BlockData) (position : option Z)
| OpRemoveBlock (e : Env) (blockId : string)
| OpUpdateBlock (e : Env) (blockId : string) (updates : BlockData)
| OpMoveBlock (e : Env) (blockId : string) (newPosition : Z)
| OpSelectBlock (e : Env) (blockId : string) (multiSelect : bool)
| OpDeselectBlock (e : Env) (blockId : string)
| OpClearSelection (e : Env)
| OpFocusBlock (e : Env) (blockId : string)
| OpSaveToHistory (now : Z) (d : HistoryData)
| OpUndo (e : Env)
| OpRedo (e : Env)
| OpDeserialize (e : Env) (es : nat -> Env) (d : DocData)
| OpUpdateMetadata (e : Env) (m : gmap string MetaValue)
| OpSetTitle (e : Env) (t : string)
| OpClear (e : Env)
| OpNotify (e : Env) (changes : Change)
| OpSubscribe (sub : Subscriber)
| OpUnsubscribe (key : nat).

(** The store a call leaves behind. *)
Definition perform (op : Operation) (s : Store) : Store :=
  match op with
  | OpAddBlock e blockData position => snd (addBlock e blockData position s)
  | OpRemoveBlock e blockId => snd (removeBlock e blockId s)
  | OpUpdateBlock e blockId updates => snd (updateBlock e blockId updates s)
  | OpMoveBlock e blockId newPosition => snd (moveBlock e blockId newPosition s)
  | OpSelectBlock e blockId multiSelect => selectBlock e blockId multiSelect s
  | OpDeselectBlock e blockId => deselectBlock e blockId s
  | OpClearSelection e => clearSelection e s
  | OpFocusBlock e blockId => focusBlock e blockId s
  | OpSaveToHistory now d => with_state (saveToHistory now d (state s)) s
  | OpUndo e => snd (undo e s)
  | OpRedo e => snd (redo e s)
  | OpDeserialize e es d => deserialize e es d s
  | OpUpdateMetadata e m => updateMetadata e m s
  | OpSetTitle e t => setTitle e t s
  | OpClear e => clear e s
  | OpNotify e changes => notified e changes s
  | OpSubscribe sub => subscribe sub s
  | OpUnsubscribe key => unsubscribe key s
  end.

(** The stores that calls on a newly constructed store can produce. *)
Inductive reachable : Store -> Prop :=
| reachable_new (e : Env) : reachable (newStore e)
| reachable_step (op : Operation) (s : Store) :
    reachable s -> reachable (perform op s).

(** The stores after each call of a sequence, in order. *)
Fixpoint run (ops : list Operation) (s : Store) : list Store :=
  match ops with
  | [] => []
  | op :: rest => perform op s :: run rest (perform op s)
  end.

(** ** Invariants *)

(** The ordering index and the block store hold the same identities, the
    index once each. *)
Definition indexConsistent (st : State) : Prop :=
  NoDup (blockOrder st) /\
  forall id, id ∈ blockOrder st <-> is_Some (blocks st !! id).

(** What the first property of the index asks for. *)
Definition indexMatchesStore (st : State) : Prop :=
  NoDup (blockOrder st) /\ length (blockOrder st) = size (blocks st).

Definition cursorInRange (st : State) : Prop :=
  -1 <= historyIndex st <= Z.of_nat (length (history st)) - 1.

Definition historyBounded (st : State) : Prop :=
  Z.of_nat (length (history st)) <= maxHistorySize st.

(** What every reachable store satisfies about its history. *)
Definition historyInvariant (st : State) : Prop :=
  cursorInRange st /\ historyBounded st /\ maxHistorySize st = 50.

(** A sequence of [addBlock], [removeBlock] and [moveBlock] calls in which
    every [addBlock] uses an identity the store does not hold. *)
Definition isIndexOp (op : Operation) : Prop :=
  match op with
  | OpAddBlock _ _ _ | OpRemoveBlock _ _ | OpMoveBlock _ _ _ => True
  | _ => False
  end.

Definition addsFresh (op : Operation) (s : Store) : Prop :=
  match op with
  | OpAddBlock e blockData _ =>
      blocks (state s) !! chooseBlockId e blockData = None
  | _ => True
  end.

Fixpoint freshIndexRun (ops : list Operation) (s : Store) : Prop :=
  match ops with
  | [] => True
  | op :: rest =>
      isIndexOp op /\ addsFresh op s /\ freshIndexRun rest (perform op s)
  end.

(** The entries that [n] successive [undo()] calls replay, the first
    call's first; the sequence ends when a call returns false or throws. *)
Fixpoint undoReplays (n : nat) (es : nat -> Env) (s : Store)
    : list HistoryItem :=
  match n with
  | O => []
  | S k =>
      match fst (undo (es O) s) with
      | Normal true =>
          match at_ (historyIndex (state s)) (history (state s)) with
          | Some item =>
              item :: undoReplays k (fun i => es (S i)) (snd (undo (es O) s))
          | None => []
          end
      | _ => []
      end
  end.

(** A mutation that takes effect: [addBlock] with an identity the store
    does not hold, [removeBlock] or [updateBlock] of a stored identity,
    [moveBlock] of an identity in the index. *)
Definition mutationApplies (op : Operation) (s : Store) : Prop :=
  match op with
  | OpAddBlock e blockData _ =>
      blocks (state s) !! chooseBlockId e blockData = None
  | OpRemoveBlock _ blockId => is_Some (blocks (state s) !! blockId)
  | OpUpdateBlock _ blockId _ => is_Some (blocks (state s) !! blockId)
  | OpMoveBlock _ blockId _ => blockId ∈ blockOrder (state s)
  | _ => False
  end.

(** An [addBlock] whose position makes it append: none given, out of
    range, or the length of the index. *)
Definition addAppends (op : Operation) (s : Store) : Prop :=
  match op with
  | OpAddBlock _ _ (Some p) =>
      p < 0 \/ Z.of_nat (length (blockOrder (state s))) <= p
  | _ => True
  end.

(** The fields of the state that [serialize] copies, the update time and
    the blocks aside. *)
Definition docHeader (st : State)
    : string * string * string * Z * gmap string MetaValue :=
  (documentId st, title st, version st, createdAt st, metadata st).

(** The index after [removeBlock] and [undo]: the identity taken out and
    appended again. *)
Definition reappended (blockId : string) (l : list string) : list string :=
  push blockId (without blockId l).

(** The state [undo()] brings back after a mutation, the update time
    aside: the state before the mutation, and after [removeBlock] the one
    with the identity re-appended. *)
Definition restoredState (op : Operation) (st : State) : State :=
  match op with
  | OpRemoveBlock _ blockId =>
      set_blockOrder (reappended blockId (blockOrder st)) st
  | _ => st
  end.

(** A serialised document with another [updatedAt]. *)
Definition withUpdatedAt (t : Z) (d : DocData) : DocData :=
  mkDocData (doc_documentId d) (doc_title d) (doc_version d)
    (doc_createdAt d) (Some t) (doc_metadata d) (doc_blocks d).

(** [map.set(k, v)] for each entry in turn: a later entry replaces an
    earlier one under the same key. *)
Definition insertAll {V} (l : list (string * V)) (m : gmap string V)
    : gmap string V :=
  fold_left (fun m kv => <[kv.1 := kv.2]> m) l m.

(** Entries under one key agree. *)
Definition functional {V} (l : list (string * V)) : Prop :=
  forall i j k v v', l !! i = Some (k, v) -> l !! j = Some (k, v') -> v = v'.

(** The block [addBlock] stores for a serialised block: the six
    persistable fields and nothing else. *)
Definition revived (b : Block) : Block :=
  mkBlock (b_id b) (b_type b) (b_content b) (b_attributes b) (b_createdAt b)
    (b_updatedAt b) ∅.

(** The identities and blocks that the [addBlock] calls of [deserialize]
    put into the store, in call order. *)
Fixpoint reloadEntries (es : nat -> Env) (l : list BlockData)
    : list (string * Block) :=
  match l with
  | [] => []
  | blockData :: rest =>
      (chooseBlockId (es O) blockData,
       buildBlock (es O) (chooseBlockId (es O) blockData) blockData)
      :: reloadEntries (fun i => es (S i)) rest
  end.

(** Listed blocks that would be stored under the same identity when the
    document is loaded again (the [id] field when it is not empty, else
    the identity generated for that block) have the same persistable
    fields. *)
Definition reloadCoherent (es : nat -> Env) (bs : list Block) : Prop :=
  forall i j bi bj,
    bs !! i = Some bi -> bs !! j = Some bj ->
    chooseBlockId (es i) (persistBlock bi)
    = chooseBlockId (es j) (persistBlock bj) ->
    persistBlock bi = persistBlock bj.

(** Every stored block carries the identity it is stored under, and that
    identity is not the empty string. *)
Definition ownIds (st : State) : Prop :=
  forall k b, blocks st !! k = Some b -> b_id b = k /\ k <> EmptyString.

(** The events of one notification cycle over [subs]: each observer is
    called, and a callback that throws leaves a console entry. *)
Definition notificationEvents (st : State) (ch : Change)
    (subs : list Subscriber) : list Event :=
  flat_map
    (fun sub =>
       Called (sub_key sub) st ch ::
       match callback sub st ch with
       | Normal _ => []
       | Throw err => [ConsoleError err]
       end) subs.

(** ** Example stores *)

Definition exampleEnv (n : Z) (g : string) : Env := mkEnv g n n n n.

(** [{ id, content }] *)
Definition exampleData (i c : string) : BlockData :=
  mkBlockData (Some i) None (Some c) None None None ∅.

Definition emptyStore : Store := newStore (exampleEnv 1 "doc_1").

(** A document holding block [a]. *)
Definition storeA : Store :=
  perform (OpAddBlock (exampleEnv 2 "block_2") (exampleData "a" "x") None)
    emptyStore.

(** A document holding blocks [a] and [b], in this order. *)
Definition storeAB : Store :=
  perform (OpAddBlock (exampleEnv 3 "block_3") (exampleData "b" "y") None)
    storeA.

(** [addBlock] called again with the identity of a stored block. *)
Definition storeAA : Store :=
  perform (OpAddBlock (exampleEnv 3 "block_3") (exampleData "a" "z") None)
    storeA.

(** [updateBlock("a", { content })] on the document holding [a], then
    [undo()]. *)
Definition storeAUpdated : Store :=
  perform
    (OpUpdateBlock (exampleEnv 3 "g") "a"
       (mkBlockData None None (Some "edited") None None None ∅)) storeA.

Definition storeAUpdatedUndone : Store :=
  snd (undo (exampleEnv 4 "g") storeAUpdated).

(** [undo()] after the [addBlock] that reused identity [a]. *)
Definition storeAAUndone : Store := snd (undo (exampleEnv 4 "g") storeAA).

(** [addBlock(b, 0)] on the document holding [a], then [undo()] and
    [redo()]. *)
Definition storeBA : Store :=
  perform (OpAddBlock (exampleEnv 3 "block_3") (exampleData "b" "y") (Some 0))
    storeA.

Definition storeBARedone : Store :=
  snd (redo (exampleEnv 5 "g") (snd (undo (exampleEnv 4 "g") storeBA))).

(** [updateBlock("b", { id: "a" })] on the document holding [a] and [b],
    and the document loaded from its serialised form. *)
Definition storeABSameId : Store :=
  perform
    (OpUpdateBlock (exampleEnv 4 "g") "b"
       (mkBlockData (Some "a") None None None None None ∅)) storeAB.

Definition storeABSameIdReloaded : Store :=
  deserialize (exampleEnv 5 "doc_5") (fun i => exampleEnv 6 "block_6")
    (serialize storeABSameId) emptyStore.

(** Fifty [updateBlock] calls after the [addBlock] of [a]: fifty-one
    recordings in all. *)
Definition storeFull : Store :=
  Nat.iter 50
    (perform
       (OpUpdateBlock (exampleEnv 3 "g") "a"
          (mkBlockData None None (Some "edited") None None None ∅)))
    storeA.

Definition isAddEntry (item : HistoryItem) : bool :=
  match data item with
  | AddBlockData _ _ => true
  | _ => false
  end.

(** [redo()] after [undo()] of the [updateBlock] above, and of the
    [addBlock] that reused identity [a]. *)
Definition storeAUpdatedRedone : Store :=
  snd (redo (exampleEnv 5 "g") storeAUpdatedUndone).

Definition storeAARedone : Store :=
  snd (redo (exampleEnv 5 "g") storeAAUndone).

(** ** Statistics *)







(** ** Classes of calls *)

(** A mutation that records a history entry and notifies: any
    [addBlock], [removeBlock] or [updateBlock] of a stored identity,
    [moveBlock] of an identity in the index. *)
Definition mutationRecords (op : Operation) (s : Store) : Prop :=
  match op with
  | OpAddBlock _ _ _ => True
  | OpRemoveBlock _ blockId => is_Some (blocks (state s) !! blockId)
  | OpUpdateBlock _ blockId _ => is_Some (blocks (state s) !! blockId)
  | OpMoveBlock _ blockId _ => blockId ∈ blockOrder (state s)
  | _ => False
  end.

(** The change description a mutation hands to [notify]. *)
Definition mutationChange (op : Operation) (s : Store) : Change :=
  match op with
  | OpAddBlock e blockData _ =>
      BlockAdded (chooseBlockId e blockData)
        (buildBlock e (chooseBlockId e blockData) blockData)
  | OpRemoveBlock _ blockId => BlockRemoved blockId
  | OpUpdateBlock _ blockId updates => BlockUpdated blockId updates
  | OpMoveBlock _ blockId newPosition =>
      BlockMoved blockId (indexOf blockId (blockOrder (state s))) newPosition
  | _ => NoChange
  end.

(** Calls that neither touch the blocks nor record history: selection,
    focus, title, metadata, a bare notification, subscription. *)
Definition isViewOp (op : Operation) : Prop :=
  match op with
  | OpSelectBlock _ _ _ | OpDeselectBlock _ _ | OpClearSelection _
  | OpFocusBlock _ _ | OpUpdateMetadata _ _ | OpSetTitle _ _
  | OpNotify _ _ | OpSubscribe _ | OpUnsubscribe _ => True
  | _ => False
  end.

(** Calls that change the selection or the focus only. *)
Definition isSelectionOp (op : Operation) : Prop :=
  match op with
  | OpSelectBlock _ _ _ | OpDeselectBlock _ _ | OpClearSelection _
  | OpFocusBlock _ _ => True
  | _ => False
  end.

(** The clock reading of the notification a selection call makes. *)
Definition selectionOpTime (op : Operation) : Z :=
  match op with
  | OpSelectBlock e _ _ | OpDeselectBlock e _ | OpClearSelection e
  | OpFocusBlock e _ => nowNotify e
  | _ => 0
  end.

(** Calls under which the consistency of index and store is kept: all
    but [undo], [redo], [deserialize] and an [addBlock] that reuses a
    stored identity. *)
Definition keepsIndex (op : Operation) (s : Store) : Prop :=
  match op with
  | OpAddBlock e blockData _ =>
      blocks (state s) !! chooseBlockId e blockData = None
  | OpUndo _ | OpRedo _ | OpDeserialize _ _ _ => False
  | _ => True
  end.

(** ** Counting calls of an observer *)

Definition isCallTo (key : nat) (ev : Event) : bool :=
  match ev with
  | Called k _ _ => Nat.eqb k key
  | ConsoleError _ => false
  end.

(** How often the callback under [key] was called. *)
Definition callsTo (key : nat) (evs : list Event) : nat :=
  length (List.filter (isCallTo key) evs).

(** How often [key] is among the subscribers. *)
Definition subscribedCount (key : nat) (subs : list Subscriber) : nat :=
  length (List.filter (fun x => Nat.eqb (sub_key x) key) subs).

(** The blocks of a document to load. *)
Definition blocksToLoad (d : DocData) : list BlockData :=
  match doc_blocks d with
  | Some l => l
  | None => []
  end.

(** The state [deserialize] prepares before it loads the blocks: the
    header fields taken from the data, no blocks. *)
Definition headerLoaded (e : Env) (d : DocData) (st : State) : State :=
  set_blockOrder []
    (set_blocks ∅
       (set_metadata (orObject (doc_metadata d) ∅)
          (set_updatedAt (orNumber (doc_updatedAt d) (nowUpdated e))
             (set_createdAt (orNumber (doc_createdAt d) (nowCreated e))
                (set_version (orString (doc_version d) "1.0.0")
                   (set_title (orString (doc_title d) "Untitled Document")
                      (set_documentId
                         (orString (doc_documentId d) (generatedId e))
                         st))))))).

(** A serialised document whose fields [deserialize] takes as they are:
    non-empty identity, title and version, a creation time other than 0,
    metadata, and blocks with all six persistable fields. *)
Definition savedDocument (i t v : string) (c u : Z)
    (m : gmap string MetaValue) (bs : list Block) : DocData :=
  mkDocData (Some i) (Some t) (Some v) (Some c) (Some u) (Some m)
    (Some (map persistBlock bs)).

(** ** More example stores *)

(** Block [a] selected and focused in the document holding [a] and [b]. *)
Definition storeABFocused : Store :=
  focusBlock (exampleEnv 5 "g") "a"
    (selectBlock (exampleEnv 4 "g") "a" false storeAB).

(** An observer that returns and one that throws. *)
Definition quietObserver : Subscriber := mkSubscriber 1 (fun _ _ => Normal tt).

Definition failingObserver : Subscriber :=
  mkSubscriber 2 (fun _ _ => Throw "boom").

Definition storeObserved : Store :=
  subscribe failingObserver (subscribe quietObserver storeAB).

(** The document holding [a] and [b] after [moveBlock(b, 0)], a load of
    a document without blocks, and [undo()]. *)
Definition storeLoadedEmpty : Store :=
  deserialize (exampleEnv 5 "doc_5") (fun _ => exampleEnv 5 "block_5")
    (mkDocData None None None None None None None)
    (perform (OpMoveBlock (exampleEnv 4 "g") "b" 0) storeAB).

Definition storeLoadedEmptyUndone : Store :=
  snd (undo (exampleEnv 6 "g") storeLoadedEmpty).

(** ** Properties of the array operations *)

Section ArrayFacts.
Context {A : Type} `{EqDecision A}.
Implicit Types (l : list A) (x : A).

Lemma clampIndex_le (i : Z) (len : nat) : (clampIndex i len <= len)%nat.
Proof. unfold clampIndex. destruct (i <? 0) eqn:E; lia. Qed.

Lemma clampIndex_of_nat (k len : nat) :
  (k <= len)%nat -> clampIndex (Z.of_nat k) len = k.
Proof.
  intros H. unfold clampIndex.
  destruct (Z.of_nat k <? 0) eqn:E; [lia|]. lia.
Qed.

Lemma length_slice0 (e : Z) l :
  length (slice0 e l) = clampIndex e (length l).
Proof.
  unfold slice0. rewrite length_take. pose proof (clampIndex_le e (length l)).
  lia.
Qed.

Lemma slice0_full (e : Z) l :
  Z.of_nat (length l) <= e -> slice0 e l = l.
Proof.
  intros H. unfold slice0, clampIndex.
  destruct (e <? 0) eqn:E; [lia|].
  apply take_ge. lia.
Qed.

Lemma spliceInsert_cut (p : Z) x l :
  exists k, (k <= length l)%nat /\
            spliceInsert p x l = take k l ++ x :: drop k l.
Proof.
  exists (clampIndex p (length l)). split; [apply clampIndex_le | done].
Qed.

Lemma spliceInsert_Permutation (p : Z) x l :
  spliceInsert p x l ≡ₚ x :: l.
Proof.
  unfold spliceInsert.
  rewrite <- Permutation_middle. by rewrite take_drop.
Qed.

Lemma length_spliceInsert (p : Z) x l :
  length (spliceInsert p x l) = S (length l).
Proof. by rewrite (Permutation_length (spliceInsert_Permutation p x l)). Qed.

Lemma spliceInsert_end x l :
  spliceInsert (Z.of_nat (length l)) x l = push x l.
Proof.
  unfold spliceInsert, push.
  rewrite clampIndex_of_nat by lia.
  by rewrite take_ge, drop_ge by lia.
Qed.

Lemma spliceInsert_middle x (l1 l2 : list A) :
  spliceInsert (Z.of_nat (length l1)) x (l1 ++ l2) = l1 ++ x :: l2.
Proof.
  unfold spliceInsert.
  rewrite clampIndex_of_nat by (rewrite length_app; lia).
  by rewrite take_app_length, drop_app_length.
Qed.

Lemma spliceDelete1_middle x (l1 l2 : list A) :
  spliceDelete1 (Z.of_nat (length l1)) (l1 ++ x :: l2) = l1 ++ l2.
Proof.
  unfold spliceDelete1.
  rewrite clampIndex_of_nat by (rewrite length_app; simpl; lia).
  rewrite take_app_length.
  replace (S (length l1)) with (length (l1 ++ [x])) by
    (rewrite length_app; simpl; lia).
  replace (l1 ++ x :: l2) with ((l1 ++ [x]) ++ l2) by
    (by rewrite <- app_assoc).
  by rewrite drop_app_length.
Qed.

Lemma indexOfFrom_notin x l (i : Z) :
  x ∉ l -> indexOfFrom x l i = -1.
Proof.
  revert i. induction l as [|y r IH]; intros i Hn; simpl; [done|].
  destruct (decide (y = x)) as [->|Hne].
  - exfalso. apply Hn. left.
  - apply IH. intros Hin. apply Hn. by right.
Qed.

Lemma indexOfFrom_first x (l1 l2 : list A) (i : Z) :
  x ∉ l1 -> indexOfFrom x (l1 ++ x :: l2) i = i + Z.of_nat (length l1).
Proof.
  revert i. induction l1 as [|y r IH]; intros i Hn; simpl.
  - destruct (decide (x = x)); [lia | done].
  - destruct (decide (y = x)) as [->|Hne].
    + exfalso. apply Hn. left.
    + rewrite IH; [lia|]. intros Hin. apply Hn. by right.
Qed.

Lemma indexOf_first x (l1 l2 : list A) :
  x ∉ l1 -> indexOf x (l1 ++ x :: l2) = Z.of_nat (length l1).
Proof. intros H. unfold indexOf. by rewrite indexOfFrom_first. Qed.

Lemma indexOf_notin x l : x ∉ l -> indexOf x l = -1.
Proof. apply indexOfFrom_notin. Qed.

Lemma elem_of_first_split x l :
  x ∈ l -> exists l1 l2, l = l1 ++ x :: l2 /\ x ∉ l1.
Proof.
  induction l as [|y r IH]; intros Hin.
  - by apply elem_of_nil in Hin.
  - destruct (decide (y = x)) as [->|Hne].
    + exists [], r. split; [done|]. apply not_elem_of_nil.
    + apply elem_of_cons in Hin as [->|Hin]; [done|].
      destruct (IH Hin) as (l1 & l2 & -> & Hn).
      exists (y :: l1), l2. split; [done|].
      intros [->|H1]%elem_of_cons; [done | by apply Hn].
Qed.

Lemma indexOf_in x l : x ∈ l -> indexOf x l <> -1.
Proof.
  intros (l1 & l2 & -> & Hn)%elem_of_first_split.
  rewrite indexOf_first by done. lia.
Qed.

Lemma indexOf_miss x l : indexOf x l = -1 -> x ∉ l.
Proof. intros H Hin. by apply (indexOf_in x l). Qed.

Lemma without_notin x l : x ∉ l -> without x l = l.
Proof.
  intros Hn. unfold without. induction l as [|y r IH]; [done|].
  rewrite filter_cons. destruct (decide (y <> x)) as [Hne|Heq].
  - f_equal. apply IH. intros Hin. apply Hn. by right.
  - exfalso. apply Hn. destruct (decide (y = x)) as [->|]; [left | done].
Qed.

Lemma without_app x (l1 l2 : list A) :
  without x (l1 ++ l2) = without x l1 ++ without x l2.
Proof. apply filter_app. Qed.

Lemma without_single x : without x [x] = [].
Proof.
  unfold without. rewrite filter_cons.
  destruct (decide (x <> x)); [done|]. by rewrite filter_nil.
Qed.

Lemma without_push x l : without x (push x l) = without x l.
Proof.
  unfold push. rewrite without_app, without_single. apply app_nil_r.
Qed.

Lemma without_idemp x l : without x (without x l) = without x l.
Proof.
  apply without_notin. unfold without. rewrite list_elem_of_filter.
  by intros [? _].
Qed.

Lemma elem_of_without x y l : y ∈ without x l <-> y <> x /\ y ∈ l.
Proof. unfold without. by rewrite list_elem_of_filter. Qed.

Lemma NoDup_without x l : NoDup l -> NoDup (without x l).
Proof. apply NoDup_filter. Qed.

End ArrayFacts.

(** ** Frame facts: what each step leaves alone *)

Arguments replay : simpl never.
Arguments saveToHistory : simpl never.

Lemma state_notified e ch s :
  state (notified e ch s) = set_updatedAt (nowNotify e) (state s).
Proof. reflexivity. Qed.

Lemma subscribers_notified e ch s :
  subscribers (notified e ch s) = subscribers s.
Proof. reflexivity. Qed.

(** Projections of updated records. *)
Ltac proj :=
  cbn [fst snd state subscribers autoSaveTimeout autoSaveDelay effects
       with_state documentId title version createdAt updatedAt blocks
       blockOrder selectedBlocks focusedBlock history historyIndex
       maxHistorySize editMode readOnly metadata set_documentId set_title
       set_version set_createdAt set_updatedAt set_blocks set_blockOrder
       set_selectedBlocks set_focusedBlock set_history set_historyIndex
       set_metadata data timestamp].

Ltac store_simpl :=
  proj; repeat rewrite state_notified; repeat (progress proj).

Lemma saveToHistory_frame now d st :
  saveToHistory now d st =
  set_historyIndex (historyIndex (saveToHistory now d st))
    (set_history (history (saveToHistory now d st)) st).
Proof. unfold saveToHistory. by case_match. Qed.

Lemma saveToHistory_blocks now d st :
  blocks (saveToHistory now d st) = blocks st.
Proof. by rewrite saveToHistory_frame. Qed.

Lemma saveToHistory_blockOrder now d st :
  blockOrder (saveToHistory now d st) = blockOrder st.
Proof. by rewrite saveToHistory_frame. Qed.

Lemma saveToHistory_max now d st :
  maxHistorySize (saveToHistory now d st) = maxHistorySize st.
Proof. by rewrite saveToHistory_frame. Qed.

Lemma replay_history item r st : history (replay item r st) = history st.
Proof. unfold replay. by repeat case_match. Qed.

Lemma replay_historyIndex item r st :
  historyIndex (replay item r st) = historyIndex st.
Proof. unfold replay. by repeat case_match. Qed.

Lemma replay_max item r st :
  maxHistorySize (replay item r st) = maxHistorySize st.
Proof. unfold replay. by repeat case_match. Qed.

(** ** The history stack *)

Lemma at_in_range {A} (i : Z) (l : list A) :
  0 <= i <= Z.of_nat (length l) - 1 -> is_Some (at_ i l).
Proof.
  intros H. unfold at_. destruct (i <? 0) eqn:E; [lia|].
  apply lookup_lt_is_Some. lia.
Qed.

(** What one recording does, for any bound. *)
Lemma saveToHistory_spec now d st :
  cursorInRange st -> historyBounded st ->
  let appended :=
    push (mkHistoryItem d now) (slice0 (historyIndex st + 1) (history st)) in
  let st' := saveToHistory now d st in
  cursorInRange st' /\ historyBounded st' /\
  historyIndex st' = Z.of_nat (length (history st')) - 1 /\
  (maxHistorySize st < Z.of_nat (length appended) ->
   history st' = tail appended /\ historyIndex st' = historyIndex st) /\
  (Z.of_nat (length appended) <= maxHistorySize st ->
   history st' = appended /\ historyIndex st' = historyIndex st + 1).
Proof.
  intros [Hlo Hhi] Hb. unfold historyBounded in Hb. cbn zeta.
  assert (Hlen : length (slice0 (historyIndex st + 1) (history st))
                 = Z.to_nat (historyIndex st + 1)).
  { rewrite length_slice0. unfold clampIndex.
    destruct (historyIndex st + 1 <? 0) eqn:E; lia. }
  unfold saveToHistory, cursorInRange, historyBounded.
  destruct (maxHistorySize st <?
            Z.of_nat (length (push _ (slice0 _ (history st))))) eqn:E.
  - apply Z.ltb_lt in E. cbn.
    unfold push, shift in *. rewrite length_app in E. simpl in E.
    rewrite length_tl, length_app. simpl.
    repeat split; try lia.
  - apply Z.ltb_ge in E. cbn.
    unfold push in *. rewrite length_app in *. simpl in *.
    repeat split; try lia.
Qed.

Lemma undo_step e s item :
  0 <= historyIndex (state s) ->
  at_ (historyIndex (state s)) (history (state s)) = Some item ->
  undo e s =
  (Normal true,
   notified e (Undone (Some item))
     (with_state
        (set_historyIndex (historyIndex (state s) - 1)
           (replay item true (state s))) s)).
Proof.
  intros H0 Hat. unfold undo.
  destruct (historyIndex (state s) <? 0) eqn:E; [lia|].
  rewrite Hat. cbn. by rewrite replay_historyIndex.
Qed.

Lemma undo_history e s :
  history (state (snd (undo e s))) = history (state s).
Proof.
  unfold undo. case_match; [done|].
  destruct (at_ _ _) as [item|]; cbn; [|done].
  apply replay_history.
Qed.

Lemma redo_history e s :
  history (state (snd (redo e s))) = history (state s).
Proof.
  unfold redo. case_match; [done|].
  cbn. destruct (at_ _ _) as [item|]; cbn; [|done].
  by rewrite replay_history.
Qed.

Lemma undoReplays_take n : forall es s,
  cursorInRange (state s) ->
  undoReplays n es s =
  take n (reverse (take (Z.to_nat (historyIndex (state s) + 1))
                     (history (state s)))).
Proof.
  induction n as [|n IH]; intros es s [Hlo Hhi]; [done|].
  simpl undoReplays.
  destruct (decide (historyIndex (state s) < 0)) as [Hneg|Hpos].
  - assert (historyIndex (state s) = -1) as Hi by lia.
    unfold undo. rewrite Hi. by cbn.
  - destruct (at_in_range (historyIndex (state s)) (history (state s)))
      as [item Hat]; [lia|].
    rewrite (undo_step _ _ item) by (done || lia).
    rewrite Hat. cbn [fst snd].
    rewrite IH.
    2:{ unfold cursorInRange. rewrite state_notified. cbn.
        rewrite replay_history. lia. }
    rewrite state_notified. cbn. rewrite replay_history.
    unfold at_ in Hat. destruct (historyIndex (state s) <? 0) eqn:E; [lia|].
    replace (Z.to_nat (historyIndex (state s) + 1))
      with (S (Z.to_nat (historyIndex (state s)))) by lia.
    rewrite (take_S_r _ _ _ Hat), reverse_snoc. simpl.
    do 4 f_equal. lia.
Qed.

Lemma historyInvariant_ext st st' :
  history st' = history st ->
  historyIndex st' = historyIndex st ->
  maxHistorySize st' = maxHistorySize st ->
  historyInvariant st -> historyInvariant st'.
Proof.
  unfold historyInvariant, cursorInRange, historyBounded.
  intros -> -> ->. done.
Qed.

Lemma saveToHistory_historyInvariant now d st :
  historyInvariant st -> historyInvariant (saveToHistory now d st).
Proof.
  intros (Hc & Hb & Hm).
  destruct (saveToHistory_spec now d st Hc Hb) as (Hc' & Hb' & _).
  repeat split; try apply Hc'; try apply Hb'.
  by rewrite saveToHistory_max.
Qed.

Ltac history_frame :=
  eapply historyInvariant_ext; [| | | eassumption]; reflexivity.

Lemma addBlock_historyInvariant e blockData position s :
  historyInvariant (state s) ->
  historyInvariant (state (snd (addBlock e blockData position s))).
Proof.
  intros H. unfold addBlock. cbn [snd]. rewrite state_notified.
  eapply historyInvariant_ext; [reflexivity..|].
  cbn [state with_state].
  apply saveToHistory_historyInvariant. history_frame.
Qed.

Lemma removeBlock_historyInvariant e blockId s :
  historyInvariant (state s) ->
  historyInvariant (state (snd (removeBlock e blockId s))).
Proof.
  intros H. unfold removeBlock. case_match; [|done].
  cbn [snd]. rewrite state_notified.
  eapply historyInvariant_ext; [reflexivity..|].
  cbn [state with_state].
  apply saveToHistory_historyInvariant.
  case_match; history_frame.
Qed.

Lemma updateBlock_historyInvariant e blockId updates s :
  historyInvariant (state s) ->
  historyInvariant (state (snd (updateBlock e blockId updates s))).
Proof.
  intros H. unfold updateBlock. case_match; [|done].
  cbn [snd]. rewrite state_notified.
  eapply historyInvariant_ext; [reflexivity..|].
  cbn [state with_state].
  apply saveToHistory_historyInvariant. history_frame.
Qed.

Lemma moveBlock_historyInvariant e blockId newPosition s :
  historyInvariant (state s) ->
  historyInvariant (state (snd (moveBlock e blockId newPosition s))).
Proof.
  intros H. unfold moveBlock. case_match; [done|].
  cbn [snd]. rewrite state_notified.
  eapply historyInvariant_ext; [reflexivity..|].
  cbn [state with_state].
  apply saveToHistory_historyInvariant. history_frame.
Qed.

Lemma undo_historyInvariant e s :
  historyInvariant (state s) ->
  historyInvariant (state (snd (undo e s))).
Proof.
  intros H. unfold undo.
  destruct (historyIndex (state s) <? 0) eqn:E; [done|].
  apply Z.ltb_ge in E.
  destruct (at_ _ _) as [item|]; cbn; [|done].
  destruct H as ((Hlo & Hhi) & Hb & Hm).
  unfold historyInvariant, cursorInRange, historyBounded. cbn.
  rewrite replay_history, replay_historyIndex, replay_max.
  unfold historyBounded in Hb. lia.
Qed.

Lemma redo_historyInvariant e s :
  historyInvariant (state s) ->
  historyInvariant (state (snd (redo e s))).
Proof.
  intros H. unfold redo.
  destruct (_ <=? _) eqn:E; [done|].
  apply Z.leb_gt in E.
  destruct H as ((Hlo & Hhi) & Hb & Hm). unfold historyBounded in Hb.
  destruct (at_ _ _) as [item|]; cbn;
    unfold historyInvariant, cursorInRange, historyBounded; cbn.
  - rewrite replay_history, replay_historyIndex, replay_max. cbn. lia.
  - lia.
Qed.

Lemma loadBlocks_historyInvariant l : forall es s,
  historyInvariant (state s) ->
  historyInvariant (state (loadBlocks es l s)).
Proof.
  induction l as [|blockData rest IH]; intros es s H; [done|].
  cbn [loadBlocks]. apply IH. by apply addBlock_historyInvariant.
Qed.

Lemma deserialize_historyInvariant e es d s :
  historyInvariant (state s) ->
  historyInvariant (state (deserialize e es d s)).
Proof.
  intros H. unfold deserialize. rewrite state_notified.
  eapply historyInvariant_ext; [reflexivity..|].
  destruct (doc_blocks d) as [l|].
  - apply loadBlocks_historyInvariant. cbn [state with_state]. history_frame.
  - cbn [state with_state]. history_frame.
Qed.

Lemma newStore_historyInvariant e : historyInvariant (state (newStore e)).
Proof.
  unfold historyInvariant, cursorInRange, historyBounded. cbn. lia.
Qed.

Lemma perform_historyInvariant op s :
  historyInvariant (state s) -> historyInvariant (state (perform op s)).
Proof.
  intros H. destruct op; cbn [perform].
  - by apply addBlock_historyInvariant.
  - by apply removeBlock_historyInvariant.
  - by apply updateBlock_historyInvariant.
  - by apply moveBlock_historyInvariant.
  - unfold selectBlock. rewrite state_notified. destruct multiSelect;
      history_frame.
  - history_frame.
  - history_frame.
  - history_frame.
  - by apply saveToHistory_historyInvariant.
  - by apply undo_historyInvariant.
  - by apply redo_historyInvariant.
  - by apply deserialize_historyInvariant.
  - history_frame.
  - history_frame.
  - unfold historyInvariant, cursorInRange, historyBounded in *. cbn. lia.
  - history_frame.
  - unfold subscribe. case_match; [done | history_frame].
  - history_frame.
Qed.

Lemma reachable_historyInvariant s :
  reachable s -> historyInvariant (state s).
Proof.
  induction 1 as [e|op s _ IH].
  - apply newStore_historyInvariant.
  - by apply perform_historyInvariant.
Qed.

(** C4.  After every recording ([saveToHistory]) on a reachable store the
    history is no longer than [maxHistorySize], which is 50.  When the
    appended stack would be longer than the bound its oldest entry is
    dropped and the cursor keeps its value; otherwise the cursor advances
    by one.  After a drop, successive [undo()] calls replay the kept
    entries only, newest first: the dropped entry is replayed by none. *)
Theorem saveToHistory_bounded (s : Store) (now : Z) (d : HistoryData) :
  reachable s ->
  let st := state s in
  let appended :=
    push (mkHistoryItem d now) (slice0 (historyIndex st + 1) (history st)) in
  let st' := saveToHistory now d st in
  maxHistorySize st' = 50 /\
  Z.of_nat (length (history st')) <= maxHistorySize st' /\
  (maxHistorySize st < Z.of_nat (length appended) ->
   history st' = shift appended /\
   historyIndex st' = historyIndex st /\
   forall n es,
     undoReplays n es (with_state st' s) = take n (reverse (shift appended))) /\
  (Z.of_nat (length appended) <= maxHistorySize st ->
   history st' = appended /\ historyIndex st' = historyIndex st + 1).
Proof.
  intros Hr. cbn zeta.
  destruct (reachable_historyInvariant s Hr) as (Hc & Hb & Hm).
  destruct (saveToHistory_spec now d (state s) Hc Hb)
    as (Hc' & Hb' & Hlast & Hevict & Hadv).
  split; [by rewrite saveToHistory_max|].
  split; [apply Hb'|].
  split; [|apply Hadv].
  intros Hover. destruct (Hevict Hover) as [Hh Hi].
  split; [done|]. split; [done|].
  intros n es. rewrite undoReplays_take by done.
  cbn [state with_state]. rewrite Hlast.
  replace (Z.to_nat (Z.of_nat (length (history (saveToHistory now d (state s))))
                     - 1 + 1))
    with (length (history (saveToHistory now d (state s)))) by lia.
  rewrite firstn_all. by rewrite Hh.
Qed.

Lemma saveToHistory_bounded_witness :
  Z.of_nat
    (length
       (history
          (saveToHistory 7 (OtherData "edit")
             (state (newStore (mkEnv "doc_1" 1 1 1 1)))))) <= 50.
Proof.
  pose proof (saveToHistory_bounded (newStore (mkEnv "doc_1" 1 1 1 1)) 7
                (OtherData "edit") (reachable_new _)) as H.
  cbn zeta in H. destruct H as (Hm & Hle & _).
  rewrite saveToHistory_max in Hle. exact Hle.
Defined.

(** C9.  [undo()] and [redo()] record nothing: the history stack after
    either call is the stack before it. *)
Theorem undo_redo_keep_history (e : Env) (s : Store) :
  history (state (snd (undo e s))) = history (state s) /\
  history (state (snd (redo e s))) = history (state s).
Proof. split; [apply undo_history | apply redo_history]. Qed.

(** C10.  In every reachable store the cursor lies between -1 and the
    last index of the history.  [undo()] moves it down by one only from a
    value of at least 0, [redo()] moves it up by one only from a value
    below the last index, a recording keeps it in range, and [clear()]
    leaves an empty history with the cursor at -1. *)
Theorem cursor_in_range (s : Store) :
  reachable s ->
  cursorInRange (state s) /\
  (forall e,
     (0 <= historyIndex (state s) /\
      historyIndex (state (snd (undo e s))) = historyIndex (state s) - 1) \/
     (historyIndex (state s) < 0 /\ snd (undo e s) = s)) /\
  (forall e,
     (historyIndex (state s) < Z.of_nat (length (history (state s))) - 1 /\
      historyIndex (state (snd (redo e s))) = historyIndex (state s) + 1) \/
     (Z.of_nat (length (history (state s))) - 1 <= historyIndex (state s) /\
      snd (redo e s) = s)) /\
  (forall now d, cursorInRange (saveToHistory now d (state s))) /\
  (forall e,
     history (state (clear e s)) = [] /\
     historyIndex (state (clear e s)) = -1).
Proof.
  intros Hr.
  destruct (reachable_historyInvariant s Hr) as (Hc & Hb & Hm).
  split; [done|]. split; [|split; [|split]].
  - intros e. destruct (decide (historyIndex (state s) < 0)) as [Hn|Hp].
    + right. split; [done|]. unfold undo.
      destruct (_ <? 0) eqn:E; [done | lia].
    + left. split; [lia|].
      destruct Hc as [Hlo Hhi].
      destruct (at_in_range (historyIndex (state s)) (history (state s)))
        as [item Hat]; [lia|].
      rewrite (undo_step e s item) by (done || lia).
      cbn [snd]. by rewrite state_notified.
  - intros e.
    destruct (decide (historyIndex (state s)
                      < Z.of_nat (length (history (state s))) - 1))
      as [Hlt|Hge].
    + left. split; [done|]. unfold redo.
      destruct (_ <=? _) eqn:E; [lia|].
      destruct Hc as [Hlo Hhi].
      destruct (at_in_range (historyIndex (state s) + 1)
                  (history (state s))) as [item Hat]; [lia|].
      cbn. rewrite Hat. cbn. by rewrite replay_historyIndex.
    + right. split; [lia|]. unfold redo.
      destruct (_ <=? _) eqn:E; [done | lia].
  - intros now d. by apply saveToHistory_spec.
  - intros e. by cbn.
Qed.

Lemma cursor_in_range_witness :
  cursorInRange
    (state (perform (OpUndo (mkEnv "g" 3 3 3 3))
              (perform (OpAddBlock (mkEnv "block_2" 2 2 2 2)
                          (mkBlockData None None (Some "hello") None None
                             None ∅) None)
                 (newStore (mkEnv "doc_1" 1 1 1 1))))).
Proof.
  apply cursor_in_range.
  apply reachable_step, reachable_step, reachable_new.
Defined.

(** ** The ordering index *)

Arguments addBlock : simpl never.
Arguments removeBlock : simpl never.
Arguments updateBlock : simpl never.
Arguments moveBlock : simpl never.
Arguments undo : simpl never.
Arguments redo : simpl never.

Lemma indexConsistent_matches st : indexConsistent st -> indexMatchesStore st.
Proof.
  intros [Hnd Hel]. split; [done|].
  rewrite <- (size_dom (D := gset string)).
  rewrite <- (size_list_to_set (C := gset string)) by done.
  f_equal. apply set_eq. intros id.
  by rewrite elem_of_list_to_set, elem_of_dom, Hel.
Qed.

Lemma indexConsistent_ext st st' :
  blocks st' = blocks st -> blockOrder st' = blockOrder st ->
  indexConsistent st -> indexConsistent st'.
Proof. unfold indexConsistent. by intros -> ->. Qed.

Lemma moveBlock_found e blockId newPosition s :
  blockId ∈ blockOrder (state s) ->
  exists l1 l2,
    blockOrder (state s) = l1 ++ blockId :: l2 /\ (blockId ∉ l1) /\
    indexOf blockId (blockOrder (state s)) = Z.of_nat (length l1) /\
    moveBlock e blockId newPosition s =
    (true,
     notified e (BlockMoved blockId (Z.of_nat (length l1)) newPosition)
       (with_state
          (saveToHistory (nowHistory e)
             (MoveBlockData blockId (Z.of_nat (length l1)) newPosition)
             (set_blockOrder (spliceInsert newPosition blockId (l1 ++ l2))
                (state s))) s)).
Proof.
  intros (l1 & l2 & Hsplit & Hn)%elem_of_first_split.
  exists l1, l2. split; [done|]. split; [done|].
  assert (Hidx : indexOf blockId (blockOrder (state s))
                 = Z.of_nat (length l1)).
  { rewrite Hsplit. by apply indexOf_first. }
  split; [done|].
  unfold moveBlock. rewrite Hidx.
  destruct (Z.of_nat (length l1) =? -1) eqn:E; [lia|].
  proj.
  rewrite Hsplit, spliceDelete1_middle. reflexivity.
Qed.

Lemma moveBlock_absent e blockId newPosition s :
  blockId ∉ blockOrder (state s) ->
  moveBlock e blockId newPosition s = (false, s).
Proof.
  intros Hn. unfold moveBlock. by rewrite indexOf_notin.
Qed.

Lemma moveBlock_blockOrder_Permutation e blockId newPosition s :
  blockOrder (state (snd (moveBlock e blockId newPosition s)))
  ≡ₚ blockOrder (state s).
Proof.
  destruct (decide (blockId ∈ blockOrder (state s))) as [Hin|Hn].
  - destruct (moveBlock_found e blockId newPosition s Hin)
      as (l1 & l2 & Hsplit & _ & _ & ->).
    store_simpl.
    rewrite saveToHistory_blockOrder. proj.
    rewrite Hsplit, spliceInsert_Permutation.
    apply Permutation_middle.
  - by rewrite moveBlock_absent.
Qed.

Lemma moveBlock_blocks e blockId newPosition s :
  blocks (state (snd (moveBlock e blockId newPosition s)))
  = blocks (state s).
Proof.
  unfold moveBlock. case_match; [done|].
  store_simpl.
  by rewrite saveToHistory_blocks.
Qed.

Lemma moveBlock_indexConsistent e blockId newPosition s :
  indexConsistent (state s) ->
  indexConsistent (state (snd (moveBlock e blockId newPosition s))).
Proof.
  intros [Hnd Hel]. split.
  - by rewrite moveBlock_blockOrder_Permutation.
  - intros id.
    by rewrite moveBlock_blockOrder_Permutation, moveBlock_blocks.
Qed.

Lemma removeBlock_absent e blockId s :
  blocks (state s) !! blockId = None -> removeBlock e blockId s = (false, s).
Proof. intros H. unfold removeBlock. by rewrite H. Qed.

Lemma removeBlock_blocks e blockId s :
  is_Some (blocks (state s) !! blockId) ->
  blocks (state (snd (removeBlock e blockId s)))
  = delete blockId (blocks (state s)).
Proof.
  intros [b Hb]. unfold removeBlock. rewrite Hb. store_simpl.
  rewrite saveToHistory_blocks. by case_match.
Qed.

Lemma removeBlock_blockOrder e blockId s :
  is_Some (blocks (state s) !! blockId) ->
  blockOrder (state (snd (removeBlock e blockId s)))
  = without blockId (blockOrder (state s)).
Proof.
  intros [b Hb]. unfold removeBlock. rewrite Hb. store_simpl.
  rewrite saveToHistory_blockOrder. by case_match.
Qed.

Lemma removeBlock_indexConsistent e blockId s :
  indexConsistent (state s) ->
  indexConsistent (state (snd (removeBlock e blockId s))).
Proof.
  intros [Hnd Hel].
  destruct (blocks (state s) !! blockId) as [b|] eqn:Hb.
  - assert (Hs : is_Some (blocks (state s) !! blockId)) by (by rewrite Hb).
    split.
    + rewrite removeBlock_blockOrder by done. by apply NoDup_without.
    + intros id.
      rewrite removeBlock_blockOrder, removeBlock_blocks by done.
      rewrite elem_of_without, Hel, lookup_delete_is_Some.
      split; (intros [Hne Hs']; split; [congruence | done]).
  - by rewrite removeBlock_absent.
Qed.

Lemma addBlock_blocks e blockData position s :
  blocks (state (snd (addBlock e blockData position s)))
  = <[chooseBlockId e blockData :=
        buildBlock e (chooseBlockId e blockData) blockData]>
      (blocks (state s)).
Proof.
  unfold addBlock. store_simpl. by rewrite saveToHistory_blocks.
Qed.

Lemma addBlock_blockOrder_Permutation e blockData position s :
  blockOrder (state (snd (addBlock e blockData position s)))
  ≡ₚ chooseBlockId e blockData :: blockOrder (state s).
Proof.
  unfold addBlock. store_simpl. rewrite saveToHistory_blockOrder.
  proj.
  destruct position as [p|].
  - case_match.
    + apply spliceInsert_Permutation.
    + unfold push. by rewrite Permutation_app_comm.
  - unfold push. by rewrite Permutation_app_comm.
Qed.

Lemma addBlock_indexConsistent e blockData position s :
  blocks (state s) !! chooseBlockId e blockData = None ->
  indexConsistent (state s) ->
  indexConsistent (state (snd (addBlock e blockData position s))).
Proof.
  intros Hfresh [Hnd Hel]. split.
  - rewrite addBlock_blockOrder_Permutation. apply NoDup_cons. split; [|done].
    rewrite Hel, Hfresh. by intros [? ?].
  - intros id.
    rewrite addBlock_blockOrder_Permutation, addBlock_blocks.
    rewrite elem_of_cons, Hel, lookup_insert_is_Some.
    destruct (decide (chooseBlockId e blockData = id)) as [Heq|Hne].
    + split; intros _; by left.
    + split; (intros [Heq|Hs']; [congruence|]).
      * right. by split.
      * right. apply Hs'.
Qed.

Lemma newStore_indexConsistent e : indexConsistent (state (newStore e)).
Proof.
  split; cbn.
  - apply NoDup_nil_2.
  - intros id. rewrite lookup_empty. split.
    + by intros ?%elem_of_nil.
    + by intros [? ?].
Qed.

Lemma freshIndexRun_consistent ops : forall s,
  indexConsistent (state s) -> freshIndexRun ops s ->
  forall s', s' ∈ run ops s -> indexConsistent (state s').
Proof.
  induction ops as [|op rest IH]; intros s Hs Hrun s' Hin.
  - by apply elem_of_nil in Hin.
  - destruct Hrun as (Hop & Hfresh & Hrest).
    assert (Hstep : indexConsistent (state (perform op s))).
    { destruct op; try done; cbn [perform].
      - by apply addBlock_indexConsistent.
      - by apply removeBlock_indexConsistent.
      - by apply moveBlock_indexConsistent. }
    cbn [run] in Hin. apply elem_of_cons in Hin as [->|Hin]; [done|].
    by apply (IH (perform op s)).
Qed.

(** C1, as stated, fails: a second [addBlock] with the identity of a
    stored block overwrites the store entry and appends the identity
    again, so the index holds it twice while the store holds one block. *)
Lemma addBlock_same_id_duplicates :
  isIndexOp (OpAddBlock (exampleEnv 3 "block_3") (exampleData "a" "z") None) /\
  blockOrder (state storeAA) = ["a"; "a"] /\
  size (blocks (state storeAA)) = 1%nat /\
  ~ NoDup (blockOrder (state storeAA)) /\
  length (blockOrder (state storeAA)) <> size (blocks (state storeAA)).
Proof.
  assert (Ho : blockOrder (state storeAA) = ["a"; "a"]) by by vm_compute.
  assert (Hs : size (blocks (state storeAA)) = 1%nat) by by vm_compute.
  split; [exact I|]. split; [done|]. split; [done|]. split.
  - rewrite Ho. intros [Hn _]%NoDup_cons. apply Hn. left.
  - rewrite Ho, Hs. simpl. lia.
Qed.

(** C1, amended.  For every sequence of [addBlock], [removeBlock] and
    [moveBlock] calls on a new store in which each [addBlock] uses an
    identity (the caller's or the generated one) that the block store
    does not hold at that moment, after every call the ordering index has
    no duplicate and is as long as the block store is large. *)
Theorem index_matches_store (e : Env) (ops : list Operation) :
  freshIndexRun ops (newStore e) ->
  forall s', s' ∈ run ops (newStore e) -> indexMatchesStore (state s').
Proof.
  intros Hrun s' Hin. apply indexConsistent_matches.
  eapply freshIndexRun_consistent; [apply newStore_indexConsistent | done..].
Qed.

Lemma index_matches_store_witness :
  indexMatchesStore
    (state
       (perform (OpRemoveBlock (exampleEnv 5 "g") "a")
          (perform (OpMoveBlock (exampleEnv 4 "g") "b" 0) storeAB))).
Proof.
  apply (index_matches_store (exampleEnv 1 "doc_1")
           [OpAddBlock (exampleEnv 2 "block_2") (exampleData "a" "x") None;
            OpAddBlock (exampleEnv 3 "block_3") (exampleData "b" "y") None;
            OpMoveBlock (exampleEnv 4 "g") "b" 0;
            OpRemoveBlock (exampleEnv 5 "g") "a"]).
  - cbn [freshIndexRun isIndexOp addsFresh].
    repeat split; by vm_compute.
  - cbn [run]. do 3 apply list_elem_of_further. apply list_elem_of_here.
Defined.

(** C5.  [removeBlock(blockId)] on an identity the block store does not
    hold returns false and leaves the whole store as it was.  On an
    identity the store holds it returns true, deletes the block from the
    store and every occurrence of the identity from the ordering index
    and from the selection, and clears the focus when it was on that
    block (another focus stays). *)
Theorem removeBlock_spec (e : Env) (blockId : string) (s : Store) :
  (blocks (state s) !! blockId = None ->
   removeBlock e blockId s = (false, s)) /\
  (is_Some (blocks (state s) !! blockId) ->
   let s' := snd (removeBlock e blockId s) in
   fst (removeBlock e blockId s) = true /\
   blocks (state s') = delete blockId (blocks (state s)) /\
   blocks (state s') !! blockId = None /\
   blockOrder (state s') = without blockId (blockOrder (state s)) /\
   (blockId ∉ blockOrder (state s')) /\
   selectedBlocks (state s') = without blockId (selectedBlocks (state s)) /\
   (blockId ∉ selectedBlocks (state s')) /\
   focusedBlock (state s') <> Some blockId /\
   (focusedBlock (state s) = Some blockId -> focusedBlock (state s') = None) /\
   (focusedBlock (state s) <> Some blockId ->
    focusedBlock (state s') = focusedBlock (state s))).
Proof.
  split; [apply removeBlock_absent|].
  intros Hs. cbn zeta.
  rewrite removeBlock_blocks, removeBlock_blockOrder by done.
  destruct Hs as [b Hb]. unfold removeBlock. rewrite Hb. store_simpl.
  rewrite (saveToHistory_frame (nowHistory e)). proj.
  split; [done|]. split; [done|].
  split; [apply lookup_delete_eq|]. split; [done|].
  split; [rewrite elem_of_without; by intros [? _]|].
  destruct (decide (focusedBlock (state s) = Some blockId)) as [Hf|Hf]; proj.
  - split; [done|].
    split; [rewrite elem_of_without; by intros [? _]|].
    split; [done|]. split; [done|]. by intros ?.
  - split; [done|].
    split; [rewrite elem_of_without; by intros [? _]|].
    split; [done|]. split; [by intros ?|done].
Qed.

Lemma removeBlock_spec_witness :
  removeBlock (exampleEnv 4 "g") "c" storeAB = (false, storeAB) /\
  blockOrder (state (snd (removeBlock (exampleEnv 4 "g") "a" storeAB)))
  = without "a" (blockOrder (state storeAB)).
Proof.
  split.
  - apply (removeBlock_spec (exampleEnv 4 "g") "c" storeAB). by vm_compute.
  - apply (removeBlock_spec (exampleEnv 4 "g") "a" storeAB).
    vm_compute. eexists. reflexivity.
Defined.

(** C6.  For every identity in the ordering index and every integer
    [newPosition], in range or not, [moveBlock(blockId, newPosition)]
    returns true and leaves an index that is a rearrangement of the one
    before: the same identities, each as often as before, hence the same
    length, and no duplicate where there was none. *)
Theorem moveBlock_keeps_entries (e : Env) (blockId : string)
    (newPosition : Z) (s : Store) :
  blockId ∈ blockOrder (state s) ->
  let s' := snd (moveBlock e blockId newPosition s) in
  fst (moveBlock e blockId newPosition s) = true /\
  blockOrder (state s') ≡ₚ blockOrder (state s) /\
  length (blockOrder (state s')) = length (blockOrder (state s)) /\
  (forall id, id ∈ blockOrder (state s') <-> id ∈ blockOrder (state s)) /\
  (NoDup (blockOrder (state s)) -> NoDup (blockOrder (state s'))) /\
  blocks (state s') = blocks (state s).
Proof.
  intros Hin. cbn zeta.
  pose proof (moveBlock_blockOrder_Permutation e blockId newPosition s) as Hp.
  split.
  - destruct (moveBlock_found e blockId newPosition s Hin)
      as (l1 & l2 & _ & _ & _ & ->). done.
  - split; [done|]. split; [by rewrite Hp|]. split; [intros id; by rewrite Hp|].
    split; [by rewrite Hp | apply moveBlock_blocks].
Qed.

Lemma moveBlock_keeps_entries_witness :
  length
    (blockOrder (state (snd (moveBlock (exampleEnv 4 "g") "a" (-7) storeAB))))
  = length (blockOrder (state storeAB)).
Proof.
  apply (moveBlock_keeps_entries (exampleEnv 4 "g") "a" (-7) storeAB).
  vm_compute. apply list_elem_of_here.
Defined.

(** ** The notification cycle *)

Lemma notifySubscribers_run st ch subs : forall log,
  notifySubscribers st ch subs log
  = (Normal tt, log ++ notificationEvents st ch subs).
Proof.
  induction subs as [|sub rest IH]; intros log.
  - cbn. by rewrite app_nil_r.
  - unfold notifySubscribers in *. cbn [forEach]. unfold bind at 1.
    unfold tryCatch, invoke, consoleError.
    unfold notificationEvents. cbn [flat_map].
    destruct (callback sub st ch) as [[]|err]; rewrite IH;
      unfold notificationEvents; by rewrite <- !app_assoc.
Qed.

(** Without the [try]/[catch] the first throwing observer ends the loop:
    the second observer of this cycle is never called. *)
Example forEach_aborts_on_throw :
  forEach
    (fun sub => invoke sub (state emptyStore) DocumentCleared)
    [mkSubscriber 1 (fun _ _ => Throw "boom");
     mkSubscriber 2 (fun _ _ => Normal tt)] []
  = (Throw "boom", [Called 1 (state emptyStore) DocumentCleared]).
Proof. reflexivity. Qed.

(** C8.  Whatever the registered observers do, [notify] completes
    normally.  Every observer is called, in order, with the same state
    (the store's state with the new update time) and the same change
    description; an observer that throws adds a console entry and the
    cycle goes on with the next one.  The state the cycle leaves does not
    depend on the observers, the subscriber set is the same, and the
    autosave is scheduled. *)
Theorem notify_isolates_faults (e : Env) (changes : Change) (s : Store) :
  let st := set_updatedAt (nowNotify e) (state s) in
  let s' := snd (notify e changes s) in
  fst (notify e changes s) = Normal tt /\
  effects s' = effects s ++ notificationEvents st changes (subscribers s) /\
  (forall sub, sub ∈ subscribers s ->
     Called (sub_key sub) st changes ∈ effects s') /\
  (forall sub err, sub ∈ subscribers s -> callback sub st changes = Throw err ->
     ConsoleError err ∈ effects s') /\
  state s' = st /\
  subscribers s' = subscribers s /\
  autoSaveTimeout s' = Some (autoSaveDelay s).
Proof.
  cbn zeta. unfold notify. rewrite notifySubscribers_run. proj.
  split; [done|]. split; [done|].
  split; [|split; [|done]].
  - intros sub Hin. apply elem_of_app. right.
    unfold notificationEvents. apply list_elem_of_In, in_flat_map.
    exists sub. split; [by apply list_elem_of_In | by left].
  - intros sub err Hin Hthrow. apply elem_of_app. right.
    unfold notificationEvents. apply list_elem_of_In, in_flat_map.
    exists sub. split; [by apply list_elem_of_In|].
    rewrite Hthrow. right. by left.
Qed.

Lemma notify_isolates_faults_witness :
  Called 2
    (set_updatedAt 9 (state emptyStore)) DocumentCleared
  ∈ effects
      (snd
         (notify (exampleEnv 9 "g") DocumentCleared
            (subscribe (mkSubscriber 2 (fun _ _ => Normal tt))
               (subscribe (mkSubscriber 1 (fun _ _ => Throw "boom"))
                  emptyStore)))).
Proof.
  pose proof
    (notify_isolates_faults (exampleEnv 9 "g") DocumentCleared
       (subscribe (mkSubscriber 2 (fun _ _ => Normal tt))
          (subscribe (mkSubscriber 1 (fun _ _ => Throw "boom"))
             emptyStore))) as H.
  cbn zeta in H. destruct H as (_ & _ & Hcalled & _).
  apply (Hcalled (mkSubscriber 2 (fun _ _ => Normal tt))).
  vm_compute. apply list_elem_of_further, list_elem_of_here.
Defined.

(** ** Replaying a recorded mutation *)

Lemma without_cons_same {A} `{EqDecision A} (x : A) (l : list A) :
  without x (x :: l) = without x l.
Proof.
  unfold without. rewrite filter_cons. by destruct (decide (x <> x)).
Qed.

Lemma without_spliceInsert {A} `{EqDecision A} (p : Z) (x : A) (l : list A) :
  x ∉ l -> without x (spliceInsert p x l) = l.
Proof.
  intros Hn. unfold spliceInsert.
  rewrite without_app, without_cons_same, <- without_app, take_drop.
  by apply without_notin.
Qed.

Lemma spliceDelete1_spliceInsert {A} `{EqDecision A} (p : Z) (x : A)
    (l : list A) :
  x ∉ l ->
  spliceDelete1 (indexOf x (spliceInsert p x l)) (spliceInsert p x l) = l.
Proof.
  intros Hn. unfold spliceInsert.
  set (k := clampIndex p (length l)).
  assert (Hk : x ∉ take k l).
  { intros Hin. apply Hn. rewrite <- (take_drop k l).
    apply elem_of_app. by left. }
  rewrite indexOf_first by done.
  by rewrite spliceDelete1_middle, take_drop.
Qed.

Lemma saveToHistory_last now d st :
  cursorInRange st -> 1 <= maxHistorySize st ->
  let st' := saveToHistory now d st in
  0 <= historyIndex st' /\
  historyIndex st' = Z.of_nat (length (history st')) - 1 /\
  at_ (historyIndex st') (history st') = Some (mkHistoryItem d now).
Proof.
  intros [Hlo Hhi] Hmax. cbn zeta.
  assert (Hlen : length (slice0 (historyIndex st + 1) (history st))
                 = Z.to_nat (historyIndex st + 1)).
  { rewrite length_slice0. unfold clampIndex.
    destruct (historyIndex st + 1 <? 0) eqn:E; lia. }
  unfold saveToHistory.
  set (trunc := slice0 (historyIndex st + 1) (history st)) in *.
  destruct (maxHistorySize st <? Z.of_nat (length (push _ trunc))) eqn:E.
  - apply Z.ltb_lt in E. unfold push in *. rewrite length_app in E.
    simpl in E. proj. unfold shift.
    destruct trunc as [|h0 rest] eqn:Ht; [simpl in *; lia|].
    simpl in *. rewrite length_app. simpl.
    split; [lia|]. split; [lia|].
    unfold at_. destruct (historyIndex st <? 0) eqn:E2; [lia|].
    apply list_lookup_middle. lia.
  - apply Z.ltb_ge in E. unfold push in *. rewrite length_app in *.
    simpl in *. proj. rewrite length_app. simpl.
    split; [lia|]. split; [lia|].
    unfold at_. destruct (historyIndex st + 1 <? 0) eqn:E2; [lia|].
    apply list_lookup_middle. lia.
Qed.

Lemma replay_frame item r st :
  replay item r st =
  set_blockOrder (blockOrder (replay item r st))
    (set_blocks (blocks (replay item r st)) st).
Proof. unfold replay. destruct st. by repeat case_match. Qed.

Lemma replay_ext item r st st' :
  blocks st = blocks st' -> blockOrder st = blockOrder st' ->
  blocks (replay item r st) = blocks (replay item r st') /\
  blockOrder (replay item r st) = blockOrder (replay item r st').
Proof.
  intros Hb Ho. unfold replay.
  repeat case_match; proj; rewrite ?Hb, ?Ho; done.
Qed.

Lemma set_blocks_blockOrder_same st :
  set_blockOrder (blockOrder st) (set_blocks (blocks st) st) = st.
Proof. by destruct st. Qed.

Lemma undo_recorded eu s1 now d stm t :
  state s1 = set_updatedAt t (saveToHistory now d stm) ->
  cursorInRange stm -> 1 <= maxHistorySize stm ->
  undo eu s1 =
  (Normal true,
   notified eu (Undone (Some (mkHistoryItem d now)))
     (with_state
        (set_historyIndex (historyIndex (state s1) - 1)
           (replay (mkHistoryItem d now) true (state s1))) s1)) /\
  0 <= historyIndex (state s1) /\
  historyIndex (state s1) = Z.of_nat (length (history (state s1))) - 1 /\
  at_ (historyIndex (state s1)) (history (state s1))
  = Some (mkHistoryItem d now).
Proof.
  intros Hst Hc Hmax.
  destruct (saveToHistory_last now d stm Hc Hmax) as (H0 & Hl & Hat).
  assert (Hi : historyIndex (state s1)
               = historyIndex (saveToHistory now d stm)) by by rewrite Hst.
  assert (Hh : history (state s1) = history (saveToHistory now d stm))
    by by rewrite Hst.
  rewrite Hi, Hh in *. split; [|done].
  rewrite <- Hi. apply undo_step; by rewrite Hi, ?Hh.
Qed.

(** What [undo()] leaves right after a recorded mutation that led from
    [stm] to the recording. *)
Lemma undo_recorded_fields eu s1 now d stm t :
  state s1 = set_updatedAt t (saveToHistory now d stm) ->
  cursorInRange stm -> 1 <= maxHistorySize stm ->
  let s2 := snd (undo eu s1) in
  fst (undo eu s1) = Normal true /\
  blocks (state s2) = blocks (replay (mkHistoryItem d now) true stm) /\
  blockOrder (state s2) = blockOrder (replay (mkHistoryItem d now) true stm) /\
  docHeader (state s2) = docHeader stm /\
  updatedAt (state s2) = nowNotify eu.
Proof.
  intros Hst Hc Hmax. cbn zeta.
  destruct (undo_recorded eu s1 now d stm t Hst Hc Hmax) as (-> & _).
  store_simpl.
  assert (Hb : blocks (state s1) = blocks stm).
  { rewrite Hst. proj. apply saveToHistory_blocks. }
  assert (Ho : blockOrder (state s1) = blockOrder stm).
  { rewrite Hst. proj. apply saveToHistory_blockOrder. }
  destruct (replay_ext (mkHistoryItem d now) true _ _ Hb Ho) as [-> ->].
  split; [done|]. split; [done|]. split; [done|]. split; [|done].
  rewrite (replay_frame _ _ (state s1)). unfold docHeader. proj.
  rewrite Hst. proj. by rewrite (saveToHistory_frame now d stm).
Qed.

(** What [redo()] after [undo()] leaves right after a recorded mutation. *)
Lemma undo_redo_recorded eu er s1 now d stm t :
  state s1 = set_updatedAt t (saveToHistory now d stm) ->
  cursorInRange stm -> 1 <= maxHistorySize stm ->
  let item := mkHistoryItem d now in
  let s3 := snd (redo er (snd (undo eu s1))) in
  fst (undo eu s1) = Normal true /\
  fst (redo er (snd (undo eu s1))) = Normal true /\
  state s3 =
  set_updatedAt (nowNotify er)
    (set_blockOrder (blockOrder (replay item false (replay item true stm)))
       (set_blocks (blocks (replay item false (replay item true stm)))
          (state s1))).
Proof.
  intros Hst Hc Hmax. cbn zeta.
  destruct (undo_recorded eu s1 now d stm t Hst Hc Hmax)
    as (-> & H0 & Hl & Hat).
  assert (Hb : blocks (state s1) = blocks stm).
  { rewrite Hst. proj. apply saveToHistory_blocks. }
  assert (Ho : blockOrder (state s1) = blockOrder stm).
  { rewrite Hst. proj. apply saveToHistory_blockOrder. }
  split; [done|]. proj.
  set (item := mkHistoryItem d now) in *.
  set (st1 := state s1) in *.
  unfold redo. store_simpl. rewrite replay_history.
  destruct (Z.of_nat (length (history st1)) - 1 <=? historyIndex st1 - 1)
    eqn:E; [lia|].
  replace (historyIndex st1 - 1 + 1) with (historyIndex st1) by lia.
  rewrite Hat. unfold applyHistoryItem. store_simpl.
  split; [done|].
  destruct (replay_ext item true st1 stm Hb Ho) as [Hb1 Ho1].
  rewrite (replay_frame item false).
  match goal with
  | |- context [blocks (replay item false ?x)] =>
      destruct (replay_ext item false x (replay item true stm)) as [-> ->];
        [by proj | by proj |]
  end.
  rewrite (replay_frame item true st1).
  destruct st1. reflexivity.
Qed.

(** ** Undo and redo of a single mutation *)

Lemma serializeState_ext st st' :
  docHeader st = docHeader st' -> updatedAt st = updatedAt st' ->
  blocks st = blocks st' -> blockOrder st = blockOrder st' ->
  serializeState st = serializeState st'.
Proof.
  unfold docHeader, serializeState, orderedBlocks.
  intros [= -> -> -> -> ->] -> -> ->. done.
Qed.

Lemma indexConsistent_fresh st id :
  indexConsistent st -> blocks st !! id = None -> id ∉ blockOrder st.
Proof. intros [_ Hel] Hf Hin. apply Hel in Hin as [? ?]. congruence. Qed.

Lemma NoDup_middle_notin {A} (x : A) (l1 l2 : list A) :
  NoDup (l1 ++ x :: l2) -> x ∉ l1 ++ l2.
Proof.
  intros Hnd Hin.
  apply NoDup_app in Hnd as (_ & Hdisj & [Hx _]%NoDup_cons).
  apply elem_of_app in Hin as [Hin|Hin]; [|done].
  apply (Hdisj x Hin). left.
Qed.

(** The blocks and the index that replaying a recorded mutation backwards
    yields from the state the mutation produced. *)
Lemma replay_reverse_mutation op s :
  indexConsistent (state s) -> mutationApplies op s ->
  exists now d stm t,
    state (perform op s) = set_updatedAt t (saveToHistory now d stm) /\
    history stm = history (state s) /\
    historyIndex stm = historyIndex (state s) /\
    maxHistorySize stm = maxHistorySize (state s) /\
    docHeader stm = docHeader (state s) /\
    blocks (replay (mkHistoryItem d now) true stm) = blocks (state s) /\
    blockOrder (replay (mkHistoryItem d now) true stm)
    = blockOrder (restoredState op (state s)) /\
    (addAppends op s ->
     blocks (replay (mkHistoryItem d now) false
               (replay (mkHistoryItem d now) true stm)) = blocks stm /\
     blockOrder (replay (mkHistoryItem d now) false
                   (replay (mkHistoryItem d now) true stm)) = blockOrder stm).
Proof.
  intros Hcons Happ. destruct op; try done; cbn [mutationApplies] in Happ.
  - (* addBlock *)
    pose proof (indexConsistent_fresh _ _ Hcons Happ) as Hnotin.
    unfold perform, addBlock. proj.
    eexists _, _, _, _. split; [rewrite state_notified; reflexivity|].
    unfold replay. proj.
    do 4 (split; [done|]).
    split; [by apply delete_insert_id|].
    split.
    + destruct position as [p|]; [case_match|].
      * by apply without_spliceInsert.
      * rewrite without_push. by apply without_notin.
      * rewrite without_push. by apply without_notin.
    + intros Hend. rewrite insert_delete_eq, insert_insert_eq.
      split; [done|].
      assert (Hpush : forall l, l = push (chooseBlockId e blockData)
                                     (blockOrder (state s)) ->
                push (chooseBlockId e blockData)
                  (without (chooseBlockId e blockData) l) = l).
      { intros l ->. rewrite without_push. by rewrite without_notin. }
      apply Hpush.
      destruct position as [p|]; [|done].
      cbn [addAppends] in Hend.
      destruct ((0 <=? p) && (p <=? Z.of_nat (length (blockOrder (state s)))))
        eqn:E; [|done].
      apply andb_true_iff in E as [E1%Z.leb_le E2%Z.leb_le].
      assert (p = Z.of_nat (length (blockOrder (state s)))) as -> by lia.
      apply spliceInsert_end.
  - (* removeBlock *)
    destruct Happ as [b Hb].
    unfold perform, removeBlock. rewrite Hb. proj.
    eexists _, _, _, _. split; [rewrite state_notified; reflexivity|].
    unfold replay. proj.
    split; [by case_match|]. split; [by case_match|].
    split; [by case_match|]. split; [by case_match|].
    assert (Hbl : forall st', blocks st' = delete blockId (blocks (state s)) ->
              <[blockId:=b]> (blocks st') = blocks (state s)).
    { intros st' ->. rewrite insert_delete_eq. by apply insert_id. }
    split; [apply Hbl; by case_match|].
    split; [unfold reappended; by case_match|].
    intros _. rewrite delete_insert_eq, without_push.
    split.
    + apply delete_id.
      replace (blocks _) with (delete blockId (blocks (state s)))
        by by case_match.
      apply lookup_delete_eq.
    + replace (blockOrder _) with (without blockId (blockOrder (state s)))
        by by case_match.
      apply without_idemp.
  - (* updateBlock *)
    destruct Happ as [b Hb].
    unfold perform, updateBlock. rewrite Hb. proj.
    eexists _, _, _, _. split; [rewrite state_notified; reflexivity|].
    unfold replay. proj.
    do 4 (split; [done|]).
    split; [rewrite insert_insert_eq; by apply insert_id|].
    split; [done|].
    intros _. by rewrite !insert_insert_eq.
  - (* moveBlock *)
    destruct (moveBlock_found e blockId newPosition s Happ)
      as (l1 & l2 & Hsplit & Hn1 & Hidx & Hmove).
    cbn [perform]. rewrite Hmove. proj.
    eexists _, _, _, _. split; [rewrite state_notified; reflexivity|].
    unfold replay. proj.
    do 4 (split; [done|]).
    split; [done|].
    assert (Hn : blockId ∉ l1 ++ l2).
    { apply NoDup_middle_notin. rewrite <- Hsplit. apply Hcons. }
    assert (Hback :
      spliceInsert (Z.of_nat (length l1)) blockId
        (spliceDelete1
           (indexOf blockId (spliceInsert newPosition blockId (l1 ++ l2)))
           (spliceInsert newPosition blockId (l1 ++ l2)))
      = blockOrder (state s)).
    { rewrite spliceDelete1_spliceInsert by done.
      by rewrite spliceInsert_middle. }
    split; [done|].
    intros _. split; [done|].
    rewrite Hback, Hidx, Hsplit. by rewrite spliceDelete1_middle.
Qed.

Lemma restoredState_frame op st :
  docHeader (restoredState op st) = docHeader st /\
  blocks (restoredState op st) = blocks st /\
  updatedAt (restoredState op st) = updatedAt st.
Proof. by destruct op. Qed.

Lemma withUpdatedAt_serializeState t st :
  withUpdatedAt t (serializeState st) = serializeState (set_updatedAt t st).
Proof. reflexivity. Qed.

Lemma storeA_reachable : reachable storeA.
Proof. apply reachable_step, reachable_new. Qed.

Lemma storeAB_reachable : reachable storeAB.
Proof. apply reachable_step, reachable_step, reachable_new. Qed.

Lemma storeAB_indexConsistent : indexConsistent (state storeAB).
Proof.
  apply addBlock_indexConsistent; [by vm_compute|].
  apply addBlock_indexConsistent; [by vm_compute|].
  apply newStore_indexConsistent.
Qed.

(** The bound at work: the fifty-first recording drops the entry of the
    first call ([addBlock]); sixty [undo()] calls replay fifty entries,
    none of them that one. *)
Example eviction_after_fifty :
  reachable storeFull /\
  length (history (state storeFull)) = 50%nat /\
  historyIndex (state storeFull) = 49 /\
  length (undoReplays 60 (fun _ => exampleEnv 9 "g") storeFull) = 50%nat /\
  existsb isAddEntry (undoReplays 60 (fun _ => exampleEnv 9 "g") storeFull)
  = false /\
  existsb isAddEntry (history (state storeA)) = true.
Proof.
  split.
  - unfold storeFull.
    assert (Hn : forall n f, (forall s, reachable s -> reachable (f s)) ->
              reachable (Nat.iter n f storeA)).
    { intros n f Hf. induction n as [|n IH]; cbn [Nat.iter nat_rect].
      - apply storeA_reachable.
      - by apply Hf. }
    apply Hn. intros s Hs. by apply reachable_step.
  - repeat split; by vm_compute.
Qed.

(** C2, as stated, fails.  First, [serialize()] copies the update time,
    which every notification sets: after [updateBlock] at time 3 and
    [undo()] at time 4 the blocks are those from before, yet the output
    carries 4 where it carried 2.  Second, undoing an [addBlock] that
    reused a stored identity deletes the stored block, so the output has
    no block where it had one. *)
Lemma undo_output_differs :
  (fst (undo (exampleEnv 4 "g") storeAUpdated) = Normal true /\
   doc_updatedAt (serialize storeA) = Some 2 /\
   doc_updatedAt (serialize storeAUpdatedUndone) = Some 4 /\
   serialize storeAUpdatedUndone <> serialize storeA) /\
  (fst (undo (exampleEnv 4 "g") storeAA) = Normal true /\
   doc_blocks (serialize storeAAUndone) = Some [] /\
   doc_blocks (serialize storeA) <> Some []).
Proof.
  assert (H2 : doc_updatedAt (serialize storeA) = Some 2) by by vm_compute.
  assert (H4 : doc_updatedAt (serialize storeAUpdatedUndone) = Some 4)
    by by vm_compute.
  split; [split; [by vm_compute|]|].
  - split; [done|]. split; [done|].
    intros Heq. rewrite Heq, H2 in H4. discriminate.
  - split; [by vm_compute|]. split; [by vm_compute|].
    intros Heq.
    assert (Hlen : option_map (@length BlockData) (doc_blocks (serialize storeA))
                   = Some 1%nat) by by vm_compute.
    rewrite Heq in Hlen. discriminate.
Qed.

(** C2, amended.  In a reachable store whose ordering index and block
    store are consistent, after a single mutation that takes effect
    ([addBlock] with an identity the store does not hold, [removeBlock]
    or [updateBlock] of a stored block, [moveBlock] of an indexed block)
    an immediate [undo()] returns true and brings back the block store
    and the ordering index of before, and with them the [serialize()]
    output of before in every field but [updatedAt], which is the time
    of the undo notification; after [removeBlock] the index is the one of
    before with the identity taken out and appended at the end. *)
Theorem undo_restores_document (op : Operation) (eu : Env) (s : Store) :
  reachable s -> indexConsistent (state s) -> mutationApplies op s ->
  let s2 := snd (undo eu (perform op s)) in
  fst (undo eu (perform op s)) = Normal true /\
  blocks (state s2) = blocks (state s) /\
  blockOrder (state s2) = blockOrder (restoredState op (state s)) /\
  serialize s2 =
  withUpdatedAt (nowNotify eu)
    (serializeState (restoredState op (state s))).
Proof.
  intros Hr Hcons Happ. cbn zeta.
  destruct (reachable_historyInvariant s Hr) as (Hc & Hb & Hm).
  destruct (replay_reverse_mutation op s Hcons Happ)
    as (now & d & stm & t & Hst & Hh & Hi & Hmax & Hhead & Hbl & Hord & _).
  destruct (undo_recorded_fields eu (perform op s) now d stm t Hst)
    as (Hfst & Hb2 & Ho2 & Hh2 & Hu2).
  { unfold cursorInRange. by rewrite Hh, Hi. }
  { rewrite Hmax, Hm. lia. }
  destruct (restoredState_frame op (state s)) as (Hrh & Hrb & _).
  split; [done|]. split; [congruence|]. split; [congruence|].
  rewrite withUpdatedAt_serializeState. unfold serialize.
  apply serializeState_ext.
  - change (docHeader (set_updatedAt ?t ?x)) with (docHeader x). congruence.
  - proj. congruence.
  - proj. congruence.
  - proj. congruence.
Qed.

Lemma undo_restores_document_witness :
  blockOrder
    (state
       (snd (undo (exampleEnv 5 "g")
               (perform (OpMoveBlock (exampleEnv 4 "g") "b" 0) storeAB))))
  = blockOrder (state storeAB).
Proof.
  apply (undo_restores_document (OpMoveBlock (exampleEnv 4 "g") "b" 0)
           (exampleEnv 5 "g") storeAB).
  - apply storeAB_reachable.
  - apply storeAB_indexConsistent.
  - vm_compute. apply list_elem_of_further, list_elem_of_here.
Defined.

(** C3, as stated, fails.  First, [redo()] of an [addBlock] appends the
    identity, whatever the position of the call was: after
    [addBlock(b, 0)] on the document holding [a] the index is [b, a], and
    after [undo()] and [redo()] it is [a, b].  Second, every notification
    sets the update time: after [updateBlock] at time 3, [undo()] and
    [redo()] at time 5 the state carries 5 where it carried 3.  Third,
    after an [addBlock] that reused a stored identity the index held it
    twice, and after [undo()] and [redo()] it holds it once. *)
Lemma redo_state_differs :
  (fst (undo (exampleEnv 4 "g") storeBA) = Normal true /\
   fst (redo (exampleEnv 5 "g") (snd (undo (exampleEnv 4 "g") storeBA)))
   = Normal true /\
   blockOrder (state storeBA) = ["b"; "a"] /\
   blockOrder (state storeBARedone) = ["a"; "b"] /\
   state storeBARedone <> state storeBA) /\
  (fst (redo (exampleEnv 5 "g") storeAUpdatedUndone) = Normal true /\
   updatedAt (state storeAUpdated) = 3 /\
   updatedAt (state storeAUpdatedRedone) = 5 /\
   state storeAUpdatedRedone <> state storeAUpdated) /\
  (fst (redo (exampleEnv 5 "g") storeAAUndone) = Normal true /\
   blockOrder (state storeAA) = ["a"; "a"] /\
   blockOrder (state storeAARedone) = ["a"]).
Proof.
  assert (H1 : blockOrder (state storeBA) = ["b"; "a"]) by by vm_compute.
  assert (H2 : blockOrder (state storeBARedone) = ["a"; "b"])
    by by vm_compute.
  assert (H3 : updatedAt (state storeAUpdated) = 3) by by vm_compute.
  assert (H5 : updatedAt (state storeAUpdatedRedone) = 5) by by vm_compute.
  split; [|split].
  - split; [by vm_compute|]. split; [by vm_compute|].
    split; [done|]. split; [done|].
    intros Heq. rewrite Heq, H1 in H2. discriminate.
  - split; [by vm_compute|]. split; [done|]. split; [done|].
    intros Heq. rewrite Heq, H3 in H5. discriminate.
  - repeat split; by vm_compute.
Qed.

(** C3, amended.  In a reachable store whose ordering index and block
    store are consistent, after a single mutation that takes effect, an
    [addBlock] being one that appends (no position, a position out of
    range, or the length of the index), [undo()] and then [redo()] both
    return true and leave the state the mutation had produced (block
    store, ordering index, selection, focus, history and cursor), with
    [updatedAt] set to the time of the redo notification. *)
Theorem redo_restores_state (op : Operation) (eu er : Env) (s : Store) :
  reachable s -> indexConsistent (state s) -> mutationApplies op s ->
  addAppends op s ->
  let s1 := perform op s in
  let s3 := snd (redo er (snd (undo eu s1))) in
  fst (undo eu s1) = Normal true /\
  fst (redo er (snd (undo eu s1))) = Normal true /\
  state s3 = set_updatedAt (nowNotify er) (state s1).
Proof.
  intros Hr Hcons Happ Hend. cbn zeta.
  destruct (reachable_historyInvariant s Hr) as (Hc & Hb & Hm).
  destruct (replay_reverse_mutation op s Hcons Happ)
    as (now & d & stm & t & Hst & Hh & Hi & Hmax & _ & _ & _ & Hfw).
  destruct (Hfw Hend) as [Hb3 Ho3].
  destruct (undo_redo_recorded eu er (perform op s) now d stm t Hst)
    as (Hu & Hre & Hs3).
  { unfold cursorInRange. by rewrite Hh, Hi. }
  { rewrite Hmax, Hm. lia. }
  split; [done|]. split; [done|].
  rewrite Hs3, Hb3, Ho3.
  replace (blocks stm) with (blocks (state (perform op s)))
    by (rewrite Hst; proj; apply saveToHistory_blocks).
  replace (blockOrder stm) with (blockOrder (state (perform op s)))
    by (rewrite Hst; proj; apply saveToHistory_blockOrder).
  by rewrite set_blocks_blockOrder_same.
Qed.

Lemma redo_restores_state_witness :
  blockOrder
    (state
       (snd (redo (exampleEnv 6 "g")
               (snd (undo (exampleEnv 5 "g")
                       (perform (OpMoveBlock (exampleEnv 4 "g") "b" 0)
                          storeAB))))))
  = ["b"; "a"].
Proof.
  pose proof
    (redo_restores_state (OpMoveBlock (exampleEnv 4 "g") "b" 0)
       (exampleEnv 5 "g") (exampleEnv 6 "g") storeAB storeAB_reachable
       storeAB_indexConsistent) as H.
  cbn zeta in H. destruct H as (_ & _ & ->).
  - vm_compute. apply list_elem_of_further, list_elem_of_here.
  - exact I.
  - by vm_compute.
Defined.

(** ** Serialising and loading again *)

Lemma buildBlock_persistBlock e k b :
  buildBlock e k (persistBlock b) = revived b.
Proof. reflexivity. Qed.

Lemma persistBlock_revived b : persistBlock (revived b) = persistBlock b.
Proof. reflexivity. Qed.

Lemma persistBlock_eq_revived b b' :
  persistBlock b = persistBlock b' -> revived b = revived b'.
Proof. unfold persistBlock, revived. by intros [= -> -> -> -> -> ->]. Qed.

Lemma loadBlocks_state l : forall es s,
  blockOrder (state (loadBlocks es l s))
  = blockOrder (state s) ++ (reloadEntries es l).*1 /\
  blocks (state (loadBlocks es l s))
  = insertAll (reloadEntries es l) (blocks (state s)) /\
  metadata (state (loadBlocks es l s)) = metadata (state s).
Proof.
  induction l as [|blockData rest IH]; intros es s.
  - cbn. by rewrite app_nil_r.
  - unfold insertAll in *.
    cbn [loadBlocks reloadEntries fmap list_fmap fold_left].
    destruct (IH (fun i => es (S i)) (snd (addBlock (es O) blockData None s)))
      as (-> & -> & ->).
    rewrite addBlock_blocks.
    unfold addBlock. store_simpl. rewrite saveToHistory_blockOrder. proj.
    rewrite (saveToHistory_frame (nowHistory (es O))). proj.
    unfold push. by rewrite <- app_assoc.
Qed.

Lemma reloadEntries_lookup bs : forall es i b,
  bs !! i = Some b ->
  reloadEntries es (map persistBlock bs) !! i
  = Some (chooseBlockId (es i) (persistBlock b), revived b).
Proof.
  induction bs as [|b0 rest IH]; intros es i b Hi; [done|].
  destruct i as [|i]; cbn [map reloadEntries].
  - injection Hi as ->. reflexivity.
  - apply (IH (fun i => es (S i)) i b Hi).
Qed.

Lemma reloadEntries_values bs : forall es,
  (reloadEntries es (map persistBlock bs)).*2 = map revived bs.
Proof.
  induction bs as [|b0 rest IH]; intros es; [done|].
  cbn [map reloadEntries fmap list_fmap]. f_equal. apply IH.
Qed.

Lemma length_reloadEntries l : forall es,
  length (reloadEntries es l) = length l.
Proof.
  induction l as [|d rest IH]; intros es; [done|].
  cbn [reloadEntries length]. by rewrite IH.
Qed.

Section LaterWins.
Context {V : Type}.
Implicit Types (l : list (string * V)) (m : gmap string V).

Lemma functional_tail kv l : functional (kv :: l) -> functional l.
Proof.
  intros Hf i j k v v' Hi Hj. apply (Hf (S i) (S j) k v v'); done.
Qed.

Lemma insertAll_keeps l : forall m k v,
  m !! k = Some v ->
  (forall j v', l !! j = Some (k, v') -> v' = v) ->
  insertAll l m !! k = Some v.
Proof.
  induction l as [|[k0 v0] rest IH]; intros m k v Hm Hall; [done|].
  cbn [insertAll fold_left]. apply IH.
  - cbn. destruct (decide (k0 = k)) as [->|Hne].
    + rewrite lookup_insert_eq. f_equal. by apply (Hall O v0).
    + by rewrite lookup_insert_ne.
  - intros j v' Hj. by apply (Hall (S j) v').
Qed.

Lemma insertAll_lookup l : forall m i k v,
  functional l -> l !! i = Some (k, v) -> insertAll l m !! k = Some v.
Proof.
  induction l as [|[k0 v0] rest IH]; intros m i k v Hf Hi; [done|].
  destruct i as [|i].
  - injection Hi as -> ->. cbn [insertAll fold_left].
    apply insertAll_keeps; [apply lookup_insert_eq|].
    intros j v' Hj. symmetry. by apply (Hf O (S j) k v v').
  - cbn [insertAll fold_left]. eapply IH; [|done].
    by eapply functional_tail.
Qed.

Lemma omap_lookup_entries l m :
  (forall i k v, l !! i = Some (k, v) -> m !! k = Some v) ->
  omap (fun k => m !! k) l.*1 = l.*2.
Proof.
  induction l as [|[k0 v0] rest IH]; intros Hall; [done|].
  cbn. rewrite (Hall O k0 v0) by done. f_equal.
  apply IH. intros i k v Hi. by apply (Hall (S i)).
Qed.

End LaterWins.

Lemma reloadEntries_functional es bs :
  reloadCoherent es bs ->
  functional (reloadEntries es (map persistBlock bs)).
Proof.
  intros Hco i j k v v' Hi Hj.
  assert (Hbi : is_Some (bs !! i)).
  { apply lookup_lt_is_Some. apply lookup_lt_Some in Hi.
    by rewrite length_reloadEntries, length_map in Hi. }
  assert (Hbj : is_Some (bs !! j)).
  { apply lookup_lt_is_Some. apply lookup_lt_Some in Hj.
    by rewrite length_reloadEntries, length_map in Hj. }
  destruct Hbi as [bi Hbi], Hbj as [bj Hbj].
  rewrite (reloadEntries_lookup bs es i bi Hbi) in Hi.
  rewrite (reloadEntries_lookup bs es j bj Hbj) in Hj.
  injection Hi as Hki <-. injection Hj as Hkj <-.
  apply persistBlock_eq_revived.
  apply (Hco i j bi bj Hbi Hbj). congruence.
Qed.

Lemma ownIds_reloadCoherent es st :
  ownIds st -> reloadCoherent es (orderedBlocks st).
Proof.
  intros Hown i j bi bj Hi Hj Hk.
  assert (Hkey : forall b, b ∈ orderedBlocks st ->
            forall e, chooseBlockId e (persistBlock b) = b_id b /\
                      blocks st !! b_id b = Some b).
  { intros b Hb e. unfold orderedBlocks in Hb.
    apply list_elem_of_omap in Hb as (k & _ & Hlk).
    destruct (Hown k b Hlk) as [Hid Hne].
    unfold chooseBlockId, orString, persistBlock, truthyString. proj.
    cbn [d_id]. rewrite Hid.
    destruct (decide (k = EmptyString)); [done|]. by split. }
  destruct (Hkey bi (list_elem_of_lookup_2 _ _ _ Hi) (es i)) as [Hci Hli].
  destruct (Hkey bj (list_elem_of_lookup_2 _ _ _ Hj) (es j)) as [Hcj Hlj].
  rewrite Hci, Hcj in Hk. rewrite Hk in Hli. congruence.
Qed.

(** C7, as stated, fails.  [updateBlock] merges an [id] field like any
    other, so two stored blocks can carry one identity; loading the
    serialised document stores both under that identity, the second over
    the first: the document with contents [x, y] comes back with
    contents [y, y]. *)
Lemma reload_merges_same_id :
  reachable storeABSameId /\
  map b_content (getBlocks storeABSameId) = ["x"; "y"] /\
  map b_content (getBlocks storeABSameIdReloaded) = ["y"; "y"] /\
  doc_blocks (serialize storeABSameIdReloaded)
  <> doc_blocks (serialize storeABSameId).
Proof.
  assert (H1 : map b_content (getBlocks storeABSameId) = ["x"; "y"])
    by by vm_compute.
  assert (H2 : map b_content (getBlocks storeABSameIdReloaded) = ["y"; "y"])
    by by vm_compute.
  split; [apply reachable_step, storeAB_reachable|].
  split; [done|]. split; [done|].
  intros Heq.
  apply (f_equal (option_map (map d_content))) in Heq.
  vm_compute in Heq. discriminate.
Qed.

(** C7, amended.  For every store, [serialize()] followed by
    [deserialize()] of the output into any store yields the same blocks
    (identity, kind, content, attributes and timestamps) in the same
    order and the same metadata, provided that listed blocks which load
    under one identity (the [id] field when it is not empty, else the
    identity generated for that block) have the same persistable
    fields; this is so whenever every stored block carries the non-empty
    identity it is stored under.  Selection, focus and history are not
    part of the statement. *)
Theorem serialize_deserialize_roundtrip (e : Env) (es : nat -> Env)
    (s s0 : Store) :
  reloadCoherent es (getBlocks s) \/ ownIds (state s) ->
  let s' := deserialize e es (serialize s) s0 in
  map persistBlock (getBlocks s') = map persistBlock (getBlocks s) /\
  doc_blocks (serialize s') = doc_blocks (serialize s) /\
  metadata (state s') = metadata (state s) /\
  doc_metadata (serialize s') = doc_metadata (serialize s).
Proof.
  intros Hco. cbn zeta.
  assert (Hco' : reloadCoherent es (getBlocks s)).
  { destruct Hco as [Hco|Hown]; [done|]. by apply ownIds_reloadCoherent. }
  clear Hco. rename Hco' into Hco.
  assert (Hm : metadata (state (deserialize e es (serialize s) s0))
               = metadata (state s)).
  { unfold deserialize, serialize, serializeState. proj.
    cbn [doc_blocks doc_metadata orObject]. rewrite state_notified. proj.
    match goal with
    | |- context [loadBlocks es ?l ?s1] =>
        destruct (loadBlocks_state l es s1) as (_ & _ & ->)
    end.
    reflexivity. }
  assert (Hb : map persistBlock
                 (getBlocks (deserialize e es (serialize s) s0))
               = map persistBlock (getBlocks s)).
  { unfold getBlocks, orderedBlocks at 1.
    unfold deserialize, serialize, serializeState.
    cbn [doc_blocks]. rewrite state_notified. proj.
    match goal with
    | |- context [loadBlocks es ?l ?s1] =>
        destruct (loadBlocks_state l es s1) as (-> & -> & _)
    end.
    proj. cbn [app].
    rewrite (omap_lookup_entries _ _).
    - rewrite reloadEntries_values, map_map.
      apply map_ext. intros b. apply persistBlock_revived.
    - intros i k v Hi. eapply insertAll_lookup; [|done].
      by apply reloadEntries_functional. }
  split; [done|]. split; [|split; [done|]].
  - unfold serialize, serializeState. cbn [doc_blocks]. f_equal. apply Hb.
  - unfold serialize, serializeState. cbn [doc_metadata]. by f_equal.
Qed.

Lemma serialize_deserialize_roundtrip_witness :
  map persistBlock
    (getBlocks
       (deserialize (exampleEnv 5 "doc_5") (fun i => exampleEnv 6 "block_6")
          (serialize storeAB) emptyStore))
  = map persistBlock (getBlocks storeAB).
Proof.
  apply (serialize_deserialize_roundtrip (exampleEnv 5 "doc_5")
           (fun i => exampleEnv 6 "block_6") storeAB emptyStore).
  left. intros i j bi bj Hi Hj Hk.
  destruct i as [|[|i]]; destruct j as [|[|j]];
    vm_compute in Hi, Hj; try discriminate;
    injection Hi as <-; injection Hj as <-;
    first [reflexivity | vm_compute in Hk; discriminate].
Defined.

(** ** Further properties of the block operations *)

Lemma updateBlock_absent e blockId updates s :
  blocks (state s) !! blockId = None ->
  updateBlock e blockId updates s = (false, s).
Proof. intros H. unfold updateBlock. by rewrite H. Qed.

Lemma updateBlock_state e blockId updates s b :
  blocks (state s) !! blockId = Some b ->
  updateBlock e blockId updates s =
  (true,
   notified e (BlockUpdated blockId updates)
     (with_state
        (saveToHistory (nowHistory e)
           (UpdateBlockData blockId b
              (set_b_updatedAt (nowUpdated e) (mergeBlock b updates)))
           (set_blocks
              (<[blockId :=
                   set_b_updatedAt (nowUpdated e) (mergeBlock b updates)]>
                 (blocks (state s))) (state s))) s)).
Proof. intros H. unfold updateBlock. by rewrite H. Qed.

Lemma updateBlock_indexConsistent e blockId updates s :
  indexConsistent (state s) ->
  indexConsistent (state (snd (updateBlock e blockId updates s))).
Proof.
  intros [Hnd Hel].
  destruct (blocks (state s) !! blockId) as [b|] eqn:Hb.
  - rewrite (updateBlock_state _ _ _ _ b Hb). store_simpl.
    rewrite (saveToHistory_frame (nowHistory e)). split; proj; [done|].
    intros id. rewrite Hel, lookup_insert_is_Some.
    destruct (decide (blockId = id)) as [<-|Hne].
    + split; [by left|]. intros _. by rewrite Hb.
    + split; [intros Hs; right; by split|].
      intros [Heq|[_ Hs]]; [congruence | done].
  - by rewrite updateBlock_absent.
Qed.

(** X1.  [updateBlock] on an identity the block store does not hold and
    [moveBlock] on an identity the ordering index does not hold return
    false and leave the whole store as it was: no history entry, no
    notification, no new update time. *)
Theorem update_move_not_found (e : Env) (blockId : string)
    (updates : BlockData) (newPosition : Z) (s : Store) :
  (blocks (state s) !! blockId = None ->
   updateBlock e blockId updates s = (false, s)) /\
  (blockId ∉ blockOrder (state s) ->
   moveBlock e blockId newPosition s = (false, s)).
Proof. split; [apply updateBlock_absent | apply moveBlock_absent]. Qed.

Lemma update_move_not_found_witness :
  updateBlock (exampleEnv 4 "g") "c" (exampleData "c" "z") storeAB
  = (false, storeAB) /\
  moveBlock (exampleEnv 4 "g") "c" 0 storeAB = (false, storeAB).
Proof.
  split.
  - apply (proj1 (update_move_not_found (exampleEnv 4 "g") "c"
                    (exampleData "c" "z") 0 storeAB)). by vm_compute.
  - apply (proj2 (update_move_not_found (exampleEnv 4 "g") "c"
                    (exampleData "c" "z") 0 storeAB)).
    vm_compute. intros Hin.
    apply elem_of_cons in Hin as [Hin|Hin]; [discriminate|].
    apply elem_of_cons in Hin as [Hin|Hin]; [discriminate|].
    by apply elem_of_nil in Hin.
Defined.

(** X2.  [updateBlock] on a stored block returns true and stores the old
    block merged with the updates; its update time is the clock reading,
    also when the updates carry an [updatedAt] of their own.  The blocks
    under other identities, the set of stored identities, the ordering
    index, the selection and the focus are as before, and a consistent
    index stays consistent. *)
Theorem updateBlock_spec (e : Env) (blockId : string) (updates : BlockData)
    (s : Store) (b : Block) :
  blocks (state s) !! blockId = Some b ->
  let s' := snd (updateBlock e blockId updates s) in
  fst (updateBlock e blockId updates s) = true /\
  blocks (state s') !! blockId
  = Some (set_b_updatedAt (nowUpdated e) (mergeBlock b updates)) /\
  (forall b', blocks (state s') !! blockId = Some b' ->
     b_updatedAt b' = nowUpdated e /\
     b_createdAt b' = spreadOver (d_createdAt updates) (b_createdAt b) /\
     b_content b' = spreadOver (d_content updates) (b_content b)) /\
  (forall k, k <> blockId ->
     blocks (state s') !! k = blocks (state s) !! k) /\
  dom (blocks (state s')) = dom (blocks (state s)) /\
  blockOrder (state s') = blockOrder (state s) /\
  selectedBlocks (state s') = selectedBlocks (state s) /\
  focusedBlock (state s') = focusedBlock (state s) /\
  (indexConsistent (state s) -> indexConsistent (state s')).
Proof.
  intros Hb. cbn zeta.
  split; [by rewrite (updateBlock_state _ _ _ _ b Hb)|].
  assert (Hst : blocks (state (snd (updateBlock e blockId updates s)))
                = <[blockId :=
                      set_b_updatedAt (nowUpdated e) (mergeBlock b updates)]>
                    (blocks (state s))).
  { rewrite (updateBlock_state _ _ _ _ b Hb). store_simpl.
    by rewrite saveToHistory_blocks. }
  rewrite Hst, lookup_insert_eq.
  split; [done|]. split; [by intros b' [= <-]|].
  split; [intros k Hk; by rewrite lookup_insert_ne|].
  split.
  { apply set_eq. intros k.
    rewrite !elem_of_dom, lookup_insert_is_Some.
    destruct (decide (blockId = k)) as [<-|Hne].
    - split; [intros _; by rewrite Hb | by left].
    - split; [intros [?|[_ ?]]; [congruence|done] | intros ?; right; by split]. }
  split; [|split; [|split; [|apply updateBlock_indexConsistent]]].
  all: rewrite (updateBlock_state _ _ _ _ b Hb); store_simpl.
  all: by rewrite (saveToHistory_frame (nowHistory e)).
Qed.

Lemma updateBlock_spec_witness :
  fst (updateBlock (exampleEnv 4 "g") "a"
         (mkBlockData None None (Some "edited") None None (Some 1) ∅) storeAB)
  = true.
Proof.
  eapply (updateBlock_spec (exampleEnv 4 "g") "a"
            (mkBlockData None None (Some "edited") None None (Some 1) ∅)
            storeAB).
  by vm_compute.
Defined.

(** X3.  [addBlock] returns the caller's identity when that is a
    non-empty string and the generated one otherwise; [getBlock] on the
    returned identity then yields the block built from the caller's data,
    and the blocks under other identities are as before.  The caller's
    fields win over the defaults (kind [text-block], empty content, empty
    attributes, the clock readings as creation and update time), and a
    block built from data with an empty [id] is stored under the
    generated identity while its own [id] field is the empty string. *)
Theorem addBlock_then_getBlock (e : Env) (blockData : BlockData)
    (position : option Z) (s : Store) :
  let r := addBlock e blockData position s in
  (forall i, d_id blockData = Some i -> i <> EmptyString -> fst r = i) /\
  (d_id blockData = None \/ d_id blockData = Some EmptyString ->
   fst r = generatedId e) /\
  getBlock (fst r) (snd r) = Some (buildBlock e (fst r) blockData) /\
  (forall k, k <> fst r -> getBlock k (snd r) = getBlock k s) /\
  (forall b, getBlock (fst r) (snd r) = Some b ->
     b_type b = match d_type blockData with
                | Some t => t
                | None => "text-block"
                end /\
     b_content b = default EmptyString (d_content blockData) /\
     b_attributes b = default ∅ (d_attributes blockData) /\
     b_createdAt b = default (nowCreated e) (d_createdAt blockData) /\
     b_updatedAt b = default (nowUpdated e) (d_updatedAt blockData) /\
     b_id b = default (fst r) (d_id blockData)).
Proof.
  cbn zeta. unfold getBlock. rewrite addBlock_blocks.
  change (fst (addBlock e blockData position s))
    with (chooseBlockId e blockData).
  rewrite lookup_insert_eq.
  split.
  { intros i Hi Hne. unfold chooseBlockId, orString, truthyString.
    rewrite Hi. by destruct (decide (i = EmptyString)). }
  split.
  { intros [Hi|Hi]; unfold chooseBlockId, orString; by rewrite Hi. }
  split; [done|].
  split; [intros k Hk; by rewrite lookup_insert_ne|].
  intros b [= <-]. unfold buildBlock. cbn.
  destruct blockData as [i t c a ca ua x]. cbn.
  destruct t, c, a, ca, ua, i; cbn; repeat split; try done.
Qed.

(** ** Where a block lands *)

Lemma clampIndex_in_range (p : Z) (len : nat) :
  0 <= p <= Z.of_nat len -> clampIndex p len = Z.to_nat p.
Proof. intros H. unfold clampIndex. destruct (p <? 0) eqn:E; lia. Qed.

Lemma clampIndex_beyond (p : Z) (len : nat) :
  Z.of_nat len <= p -> clampIndex p len = len.
Proof. intros H. unfold clampIndex. destruct (p <? 0) eqn:E; lia. Qed.

Lemma clampIndex_negative (p : Z) (len : nat) :
  p < 0 -> clampIndex p len = Z.to_nat (Z.max (Z.of_nat len + p) 0).
Proof. intros H. unfold clampIndex. destruct (p <? 0) eqn:E; lia. Qed.

Lemma spliceInsert_lookup {A} (p : Z) (x : A) (l : list A) :
  spliceInsert p x l !! clampIndex p (length l) = Some x.
Proof.
  unfold spliceInsert. apply list_lookup_middle.
  rewrite length_take. pose proof (clampIndex_le p (length l)). lia.
Qed.

Lemma without_spliceInsert_any {A} `{EqDecision A} (p : Z) (x : A)
    (l : list A) :
  without x (spliceInsert p x l) = without x l.
Proof.
  unfold spliceInsert.
  by rewrite without_app, without_cons_same, <- without_app, take_drop.
Qed.

Lemma addBlock_blockOrder e blockData position s :
  blockOrder (state (snd (addBlock e blockData position s))) =
  match position with
  | Some p =>
      if (0 <=? p) && (p <=? Z.of_nat (length (blockOrder (state s))))
      then spliceInsert p (chooseBlockId e blockData) (blockOrder (state s))
      else push (chooseBlockId e blockData) (blockOrder (state s))
  | None => push (chooseBlockId e blockData) (blockOrder (state s))
  end.
Proof.
  unfold addBlock. store_simpl. by rewrite saveToHistory_blockOrder.
Qed.

Lemma moveBlock_blockOrder e blockId newPosition s (l1 l2 : list string) :
  blockOrder (state s) = l1 ++ blockId :: l2 -> blockId ∉ l1 ->
  blockOrder (state (snd (moveBlock e blockId newPosition s)))
  = spliceInsert newPosition blockId (l1 ++ l2).
Proof.
  intros Hsplit Hn. unfold moveBlock.
  rewrite Hsplit, indexOf_first by done.
  destruct (Z.of_nat (length l1) =? -1) eqn:E; [apply Z.eqb_eq in E; lia|].
  store_simpl. rewrite saveToHistory_blockOrder. proj.
  by rewrite ?Hsplit, spliceDelete1_middle.
Qed.

(** X4.  [addBlock] with a position between 0 and the length of the
    ordering index puts the identity at that index: the identities
    before it and after it keep their order.  With no position, a
    negative one or one beyond the length it appends the identity.  The
    index grows by one entry in every case. *)
Theorem addBlock_lands_at (e : Env) (blockData : BlockData)
    (position : option Z) (s : Store) :
  let id := chooseBlockId e blockData in
  let order := blockOrder (state s) in
  let order' := blockOrder (state (snd (addBlock e blockData position s))) in
  (forall p, position = Some p -> 0 <= p <= Z.of_nat (length order) ->
     order' = take (Z.to_nat p) order ++ id :: drop (Z.to_nat p) order /\
     order' !! Z.to_nat p = Some id) /\
  (position = None \/
   (exists p, position = Some p /\ (p < 0 \/ Z.of_nat (length order) < p)) ->
   order' = order ++ [id]) /\
  length order' = S (length order).
Proof.
  cbn zeta. rewrite addBlock_blockOrder. split; [|split].
  - intros p -> Hp.
    destruct ((0 <=? p) && (p <=? _)) eqn:E.
    2:{ apply andb_false_iff in E as [E%Z.leb_gt|E%Z.leb_gt]; lia. }
    unfold spliceInsert. rewrite clampIndex_in_range by done.
    split; [done|]. apply list_lookup_middle.
    rewrite length_take. lia.
  - intros [->|(p & -> & Hp)]; [done|].
    destruct ((0 <=? p) && (p <=? _)) eqn:E; [|done].
    apply andb_true_iff in E as [E1%Z.leb_le E2%Z.leb_le]. lia.
  - destruct position as [p|]; [case_match|].
    + apply length_spliceInsert.
    + unfold push. rewrite length_app. simpl. lia.
    + unfold push. rewrite length_app. simpl. lia.
Qed.

Lemma addBlock_lands_at_witness :
  blockOrder
    (state (snd (addBlock (exampleEnv 4 "g") (exampleData "c" "z") (Some 1)
                   storeAB)))
  !! Z.to_nat 1 = Some "c".
Proof.
  pose proof (addBlock_lands_at (exampleEnv 4 "g") (exampleData "c" "z")
                (Some 1) storeAB) as H.
  cbn zeta in H. destruct H as (H & _).
  destruct (H 1 eq_refl) as [_ Hl]; [|exact Hl].
  split; [lia|]. vm_compute. intros Hc. discriminate Hc.
Defined.

(** X5.  [moveBlock] of an identity in the ordering index puts it at
    index [newPosition] when that is between 0 and the last index, at the
    end when it is the last index or more, and, when it is negative, at
    that offset from the end of the index without the identity (at the
    front when the offset reaches past the front).  The other identities
    keep their order, and a move to the identity's own index changes
    nothing in the index. *)
Theorem moveBlock_lands_at (e : Env) (blockId : string) (newPosition : Z)
    (s : Store) :
  blockId ∈ blockOrder (state s) ->
  let order := blockOrder (state s) in
  let order' := blockOrder (state (snd (moveBlock e blockId newPosition s))) in
  let n := Z.of_nat (length order) in
  (0 <= newPosition <= n - 1 -> order' !! Z.to_nat newPosition = Some blockId) /\
  (n - 1 <= newPosition -> last order' = Some blockId) /\
  (newPosition < 0 ->
   order' !! Z.to_nat (Z.max (n - 1 + newPosition) 0) = Some blockId) /\
  without blockId order' = without blockId order /\
  (newPosition = indexOf blockId order -> order' = order).
Proof.
  intros Hin. cbn zeta.
  destruct (elem_of_first_split _ _ Hin) as (l1 & l2 & Hsplit & Hn).
  rewrite (moveBlock_blockOrder e blockId newPosition s l1 l2 Hsplit Hn).
  rewrite Hsplit.
  assert (Hlen : Z.of_nat (length (l1 ++ blockId :: l2)) - 1
                 = Z.of_nat (length (l1 ++ l2))).
  { rewrite !length_app. simpl. lia. }
  rewrite Hlen.
  pose proof (spliceInsert_lookup newPosition blockId (l1 ++ l2)) as Hlook.
  split; [|split; [|split; [|split]]].
  - intros Hp. by rewrite clampIndex_in_range in Hlook by lia.
  - intros Hp. unfold spliceInsert. rewrite clampIndex_beyond by lia.
    rewrite take_ge, drop_ge by lia. apply last_snoc.
  - intros Hp. by rewrite clampIndex_negative in Hlook by lia.
  - rewrite without_spliceInsert_any.
    by rewrite !without_app, without_cons_same.
  - intros ->. rewrite indexOf_first by done. apply spliceInsert_middle.
Qed.

Lemma moveBlock_lands_at_witness :
  blockOrder (state (snd (moveBlock (exampleEnv 4 "g") "b" (-5) storeAB)))
  !! Z.to_nat (Z.max (2 - 1 + -5) 0) = Some "b".
Proof.
  apply (moveBlock_lands_at (exampleEnv 4 "g") "b" (-5) storeAB).
  - vm_compute. apply list_elem_of_further, list_elem_of_here.
  - lia.
Defined.

(** ** Selection and focus *)

Lemma elem_of_setAdd (x y : string) (l : list string) :
  x ∈ setAdd y l <-> x = y \/ x ∈ l.
Proof.
  unfold setAdd. destruct (decide (y ∈ l)) as [Hin|Hn].
  - split; [by right|]. by intros [->|?].
  - rewrite elem_of_app, list_elem_of_singleton. tauto.
Qed.

Lemma NoDup_setAdd y l : NoDup l -> NoDup (setAdd y l).
Proof.
  intros Hnd. unfold setAdd. destruct (decide (y ∈ l)) as [Hin|Hn]; [done|].
  apply NoDup_app. split; [done|]. split.
  - intros x Hx ->%list_elem_of_singleton. done.
  - apply NoDup_singleton.
Qed.

(** X6.  [selectBlock(id)] without multi-selection leaves exactly [id]
    selected, whatever was selected before.  With multi-selection it
    keeps the selected identities and adds [id] once: an identity already
    selected changes nothing, a new one goes last.  Either way [id] is
    selected afterwards, whether or not a block with that identity
    exists, and the focus is untouched. *)
Theorem selectBlock_selects (e : Env) (blockId : string) (multiSelect : bool)
    (s : Store) :
  let sel := selectedBlocks (state s) in
  let sel' := selectedBlocks (state (selectBlock e blockId multiSelect s)) in
  (multiSelect = false -> sel' = [blockId]) /\
  (multiSelect = true ->
   (forall x, x ∈ sel' <-> x = blockId \/ x ∈ sel) /\
   (blockId ∈ sel -> sel' = sel) /\
   (blockId ∉ sel -> sel' = sel ++ [blockId]) /\
   (NoDup sel -> NoDup sel')) /\
  blockId ∈ sel' /\
  focusedBlock (state (selectBlock e blockId multiSelect s))
  = focusedBlock (state s) /\
  blocks (state (selectBlock e blockId multiSelect s)) = blocks (state s).
Proof.
  cbn zeta. unfold selectBlock. store_simpl.
  split; [|split; [|split; [|split]]].
  - intros ->. proj. unfold setAdd.
    case_decide as Hin; [by apply elem_of_nil in Hin | done].
  - intros ->. proj. split; [intros x; apply elem_of_setAdd|].
    split; [|split].
    + intros Hin. unfold setAdd. by destruct (decide _).
    + intros Hn. unfold setAdd. by destruct (decide _).
    + apply NoDup_setAdd.
  - apply elem_of_setAdd. by left.
  - by destruct multiSelect.
  - by destruct multiSelect.
Qed.

(** X7.  [deselectBlock(id)] leaves [id] unselected and every other
    identity selected or not as it was; after a multi-selection of an
    identity that was not selected it brings the selection back to what
    it was.  [clearSelection()] leaves nothing selected. *)
Theorem deselectBlock_deselects (e e1 : Env) (blockId : string) (s : Store) :
  let sel := selectedBlocks (state s) in
  let sel' := selectedBlocks (state (deselectBlock e blockId s)) in
  (blockId ∉ sel') /\
  (forall x, x <> blockId -> (x ∈ sel' <-> x ∈ sel)) /\
  (blockId ∉ sel ->
   selectedBlocks
     (state (deselectBlock e blockId (selectBlock e1 blockId true s)))
   = sel) /\
  selectedBlocks (state (clearSelection e s)) = [].
Proof.
  cbn zeta. unfold deselectBlock, clearSelection, selectBlock. store_simpl.
  split; [|split; [|split; [|done]]].
  - rewrite elem_of_without. by intros [? _].
  - intros x Hx. rewrite elem_of_without. tauto.
  - intros Hn. unfold setAdd. destruct (decide _) as [|_]; [done|].
    by rewrite without_app, without_single, app_nil_r, without_notin.
Qed.

Lemma deselectBlock_deselects_witness :
  selectedBlocks
    (state (deselectBlock (exampleEnv 7 "g") "b"
              (selectBlock (exampleEnv 6 "g") "b" true storeABFocused)))
  = selectedBlocks (state storeABFocused).
Proof.
  apply (deselectBlock_deselects (exampleEnv 7 "g") (exampleEnv 6 "g") "b"
           storeABFocused).
  vm_compute. intros Hin.
  apply elem_of_cons in Hin as [Hin|Hin]; [discriminate|].
  by apply elem_of_nil in Hin.
Defined.

(** ** What is and what is not undoable *)

Lemma undo_completion e s :
  fst (undo e s) =
  if historyIndex (state s) <? 0 then Normal false
  else match at_ (historyIndex (state s)) (history (state s)) with
       | Some _ => Normal true
       | None => Throw "TypeError"
       end.
Proof.
  unfold undo. destruct (_ <? 0); [done|]. by destruct (at_ _ _).
Qed.

(** X8.  Selection, focus, title, metadata, a bare notification and
    subscription never touch the block store or the ordering index and
    record no history entry: the history stack and the cursor are as
    before, so a following [undo()] completes as it would have before the
    call and does not take the call back. *)
Theorem view_ops_not_recorded (op : Operation) (s : Store) :
  isViewOp op ->
  blocks (state (perform op s)) = blocks (state s) /\
  blockOrder (state (perform op s)) = blockOrder (state s) /\
  history (state (perform op s)) = history (state s) /\
  historyIndex (state (perform op s)) = historyIndex (state s) /\
  (forall e, fst (undo e (perform op s)) = fst (undo e s)).
Proof.
  intros Hop.
  assert (H : blocks (state (perform op s)) = blocks (state s) /\
              blockOrder (state (perform op s)) = blockOrder (state s) /\
              history (state (perform op s)) = history (state s) /\
              historyIndex (state (perform op s)) = historyIndex (state s)).
  { destruct op; try done; cbn [perform].
    - unfold selectBlock. store_simpl. by destruct multiSelect.
    - unfold subscribe. by case_match. }
  destruct H as (Hb & Ho & Hh & Hi).
  do 4 (split; [done|]).
  intros e. by rewrite !undo_completion, Hh, Hi.
Qed.

Lemma view_ops_not_recorded_witness :
  history (state (perform (OpSetTitle (exampleEnv 4 "g") "Notes") storeAB))
  = history (state storeAB).
Proof.
  apply (view_ops_not_recorded (OpSetTitle (exampleEnv 4 "g") "Notes")
           storeAB).
  exact I.
Defined.

(** X9.  [undo()] and [redo()] change the block store, the ordering
    index, the cursor and the update time only: document identity, title,
    version, creation time, metadata, selection, focus, history bound and
    subscribers are as before the call, whatever entry is replayed. *)
Theorem undo_redo_frame (e : Env) (s : Store) :
  (docHeader (state (snd (undo e s))) = docHeader (state s) /\
   selectedBlocks (state (snd (undo e s))) = selectedBlocks (state s) /\
   focusedBlock (state (snd (undo e s))) = focusedBlock (state s) /\
   maxHistorySize (state (snd (undo e s))) = maxHistorySize (state s) /\
   subscribers (snd (undo e s)) = subscribers s) /\
  (docHeader (state (snd (redo e s))) = docHeader (state s) /\
   selectedBlocks (state (snd (redo e s))) = selectedBlocks (state s) /\
   focusedBlock (state (snd (redo e s))) = focusedBlock (state s) /\
   maxHistorySize (state (snd (redo e s))) = maxHistorySize (state s) /\
   subscribers (snd (redo e s)) = subscribers s).
Proof.
  split.
  - unfold undo. destruct (_ <? 0); [done|].
    destruct (at_ _ _) as [item|]; [|done].
    cbn [applyHistoryItem]. store_simpl.
    rewrite (replay_frame item true (state s)). by unfold docHeader.
  - unfold redo. destruct (_ <=? _); [done|].
    proj. destruct (at_ _ _) as [item|]; [|done].
    cbn [applyHistoryItem]. store_simpl.
    rewrite (replay_frame item false). by unfold docHeader.
Qed.

Lemma removeBlock_state e blockId s b :
  blocks (state s) !! blockId = Some b ->
  exists stm,
    state (snd (removeBlock e blockId s))
    = set_updatedAt (nowNotify e)
        (saveToHistory (nowHistory e) (RemoveBlockData blockId b) stm) /\
    history stm = history (state s) /\
    historyIndex stm = historyIndex (state s) /\
    maxHistorySize stm = maxHistorySize (state s) /\
    blocks stm = delete blockId (blocks (state s)) /\
    selectedBlocks stm = without blockId (selectedBlocks (state s)) /\
    focusedBlock stm <> Some blockId.
Proof.
  intros Hb. unfold removeBlock. rewrite Hb. store_simpl.
  eexists. split; [reflexivity|].
  destruct (decide (focusedBlock (state s) = Some blockId)); proj;
    repeat split; done.
Qed.

(** X10.  In a reachable store, [undo()] right after [removeBlock] of a
    stored block brings the block back into the store, but not its
    selection or focus: the identity stays out of the selection and the
    focus stays off it, also when the block was selected and focused
    before the removal. *)
Theorem undo_remove_keeps_deselected (e eu : Env) (blockId : string)
    (s : Store) (b : Block) :
  reachable s -> blocks (state s) !! blockId = Some b ->
  let s2 := snd (undo eu (snd (removeBlock e blockId s))) in
  fst (undo eu (snd (removeBlock e blockId s))) = Normal true /\
  blocks (state s2) !! blockId = Some b /\
  (blockId ∉ selectedBlocks (state s2)) /\
  focusedBlock (state s2) <> Some blockId.
Proof.
  intros Hr Hb. cbn zeta.
  destruct (reachable_historyInvariant s Hr) as (Hc & Hbd & Hm).
  destruct (removeBlock_state e blockId s b Hb)
    as (stm & Hst & Hh & Hi & Hmax & Hbl & Hsel & Hf).
  destruct (undo_recorded eu (snd (removeBlock e blockId s)) (nowHistory e)
              (RemoveBlockData blockId b) stm (nowNotify e) Hst)
    as (-> & _).
  { unfold cursorInRange. by rewrite Hh, Hi. }
  { rewrite Hmax, Hm. lia. }
  split; [done|]. store_simpl.
  rewrite (replay_frame _ true). proj. rewrite !Hst. proj.
  rewrite (saveToHistory_frame (nowHistory e)). proj.
  split; [|split; [|done]].
  - unfold replay. proj. apply lookup_insert_eq.
  - rewrite Hsel, elem_of_without. by intros [? _].
Qed.

Lemma undo_remove_keeps_deselected_witness :
  focusedBlock
    (state
       (snd (undo (exampleEnv 7 "g")
               (snd (removeBlock (exampleEnv 6 "g") "a" storeABFocused)))))
  <> Some "a".
Proof.
  eapply (undo_remove_keeps_deselected (exampleEnv 6 "g") (exampleEnv 7 "g")
            "a" storeABFocused).
  - apply (reachable_step (OpFocusBlock (exampleEnv 5 "g") "a")).
    apply (reachable_step (OpSelectBlock (exampleEnv 4 "g") "a" false)).
    apply storeAB_reachable.
  - by vm_compute.
Defined.

(** ** The cursor after mutations, undo and redo *)

Lemma mutation_recorded op s :
  mutationRecords op s ->
  exists now d stm t,
    state (perform op s) = set_updatedAt t (saveToHistory now d stm) /\
    history stm = history (state s) /\
    historyIndex stm = historyIndex (state s) /\
    maxHistorySize stm = maxHistorySize (state s).
Proof.
  intros Hop. destruct op; try done; cbn [mutationRecords perform] in *.
  - unfold addBlock. store_simpl. by eexists _, _, _, _.
  - destruct Hop as [b Hb]. unfold removeBlock. rewrite Hb. store_simpl.
    eexists _, _, _, _. split; [reflexivity|]. by case_match.
  - destruct Hop as [b Hb]. rewrite (updateBlock_state _ _ _ _ b Hb).
    store_simpl. by eexists _, _, _, _.
  - destruct (moveBlock_found e blockId newPosition s Hop)
      as (l1 & l2 & _ & _ & _ & ->).
    store_simpl. by eexists _, _, _, _.
Qed.

Lemma redo_at_end e s :
  historyIndex (state s) = Z.of_nat (length (history (state s))) - 1 ->
  redo e s = (Normal false, s).
Proof.
  intros H. unfold redo. destruct (_ <=? _) eqn:E; [done|].
  apply Z.leb_gt in E. lia.
Qed.

(** X11.  In a reachable store, right after a mutation that records
    ([addBlock], [removeBlock] or [updateBlock] of a stored block,
    [moveBlock] of an indexed block) or after a bare [saveToHistory],
    [redo()] returns false and leaves the store as it is: a new action
    discards whatever could have been redone. *)
Theorem redo_unavailable_after_mutation (op : Operation) (er : Env)
    (s : Store) :
  reachable s ->
  mutationRecords op s \/ (exists now d, op = OpSaveToHistory now d) ->
  redo er (perform op s) = (Normal false, perform op s).
Proof.
  intros Hr Hop.
  destruct (reachable_historyInvariant s Hr) as (Hc & Hb & Hm).
  apply redo_at_end.
  destruct Hop as [Hop|(now & d & ->)].
  - destruct (mutation_recorded op s Hop)
      as (now & d & stm & t & -> & Hh & Hi & Hmax).
    proj. apply saveToHistory_spec.
    + unfold cursorInRange. by rewrite Hh, Hi.
    + unfold historyBounded. by rewrite Hh, Hmax.
  - cbn [perform]. proj. by apply saveToHistory_spec.
Qed.

Lemma redo_unavailable_after_mutation_witness :
  fst (redo (exampleEnv 6 "g")
         (perform (OpRemoveBlock (exampleEnv 5 "g") "a")
            (snd (undo (exampleEnv 4 "g") storeAB))))
  = Normal false.
Proof.
  rewrite (redo_unavailable_after_mutation
             (OpRemoveBlock (exampleEnv 5 "g") "a") (exampleEnv 6 "g")
             (snd (undo (exampleEnv 4 "g") storeAB))).
  - reflexivity.
  - apply (reachable_step (OpUndo (exampleEnv 4 "g"))), storeAB_reachable.
  - left. vm_compute. eexists. reflexivity.
Defined.

(** X12.  In a reachable store, [n] successive [undo()] calls replay
    exactly as many entries as the smaller of [n] and the cursor plus
    one, never more than fifty: [undo()] succeeds once per entry at or
    below the cursor and returns false from then on. *)
Theorem undo_count (n : nat) (es : nat -> Env) (s : Store) :
  reachable s ->
  length (undoReplays n es s)
  = Nat.min n (Z.to_nat (historyIndex (state s) + 1)) /\
  (length (undoReplays n es s) <= 50)%nat.
Proof.
  intros Hr.
  destruct (reachable_historyInvariant s Hr) as (Hc & Hb & Hm).
  rewrite undoReplays_take by done.
  rewrite length_take, length_reverse, length_take.
  destruct Hc as [Hlo Hhi]. unfold historyBounded in Hb. lia.
Qed.

Lemma undo_count_witness :
  length (undoReplays 5 (fun _ => exampleEnv 4 "g") storeAB)
  = Nat.min 5 (Z.to_nat (historyIndex (state storeAB) + 1)).
Proof.
  apply (undo_count 5 (fun _ => exampleEnv 4 "g") storeAB).
  apply storeAB_reachable.
Defined.

(** X13.  In a reachable store with the cursor at an entry, [undo()]
    returns true and moves the cursor down by one, and a [redo()] right
    after it returns true and moves it back: the history stack and the
    cursor are then what they were before the two calls. *)
Theorem redo_available_after_undo (eu er : Env) (s : Store) :
  reachable s -> 0 <= historyIndex (state s) ->
  let s1 := snd (undo eu s) in
  let s2 := snd (redo er s1) in
  fst (undo eu s) = Normal true /\
  historyIndex (state s1) = historyIndex (state s) - 1 /\
  fst (redo er s1) = Normal true /\
  historyIndex (state s2) = historyIndex (state s) /\
  history (state s2) = history (state s).
Proof.
  intros Hr H0. cbn zeta.
  destruct (reachable_historyInvariant s Hr) as ([Hlo Hhi] & Hb & Hm).
  destruct (at_in_range (historyIndex (state s)) (history (state s)))
    as [item Hat]; [lia|].
  rewrite (undo_step eu s item) by done. proj.
  split; [done|]. split; [by store_simpl|].
  unfold redo. store_simpl. rewrite replay_history.
  destruct (_ <=? _) eqn:E; [apply Z.leb_le in E; lia|].
  replace (historyIndex (state s) - 1 + 1) with (historyIndex (state s))
    by lia.
  rewrite Hat. cbn [applyHistoryItem]. store_simpl.
  rewrite replay_historyIndex, replay_history. proj.
  by rewrite replay_history.
Qed.

Lemma redo_available_after_undo_witness :
  fst (redo (exampleEnv 5 "g") (snd (undo (exampleEnv 4 "g") storeAB)))
  = Normal true.
Proof.
  apply (redo_available_after_undo (exampleEnv 4 "g") (exampleEnv 5 "g")
           storeAB); [apply storeAB_reachable | by vm_compute].
Defined.

Lemma set_updatedAt_same st : set_updatedAt (updatedAt st) st = st.
Proof. by destruct st. Qed.

(** X14.  An entry recorded through [saveToHistory] under an action the
    replay does not know is undone without any effect on the document:
    in a reachable store [undo()] right after such a recording returns
    true, moves the cursor down by one and leaves the block store and
    the ordering index as they were. *)
Theorem undo_unknown_action (now : Z) (a : string) (eu : Env) (s : Store) :
  reachable s ->
  let s1 := perform (OpSaveToHistory now (OtherData a)) s in
  let s2 := snd (undo eu s1) in
  fst (undo eu s1) = Normal true /\
  historyIndex (state s2) = historyIndex (state s1) - 1 /\
  blocks (state s2) = blocks (state s) /\
  blockOrder (state s2) = blockOrder (state s).
Proof.
  intros Hr. cbn zeta.
  destruct (reachable_historyInvariant s Hr) as (Hc & Hb & Hm).
  destruct (undo_recorded eu (perform (OpSaveToHistory now (OtherData a)) s)
              now (OtherData a) (state s)
              (updatedAt (saveToHistory now (OtherData a) (state s))))
    as (-> & _); [|done|lia|].
  { cbn [perform]. proj. by rewrite set_updatedAt_same. }
  proj. split; [done|]. store_simpl. unfold replay. proj.
  cbn [perform]. proj.
  by rewrite saveToHistory_blocks, saveToHistory_blockOrder.
Qed.

Lemma undo_unknown_action_witness :
  blockOrder
    (state
       (snd (undo (exampleEnv 5 "g")
               (perform (OpSaveToHistory 4 (OtherData "rename")) storeAB))))
  = blockOrder (state storeAB).
Proof.
  apply (undo_unknown_action 4 "rename" (exampleEnv 5 "g") storeAB).
  apply storeAB_reachable.
Defined.

(** X15.  [clear()] empties the block store, the ordering index, the
    selection, the focus and the history, and keeps document identity,
    title, version, creation time, metadata and subscribers.  It cannot
    be undone: [undo()] and [redo()] after it return false and leave the
    store as it is.  The index of the cleared store is consistent with
    its block store. *)
Theorem clear_spec (e eu : Env) (s : Store) :
  let s' := clear e s in
  blocks (state s') = ∅ /\
  blockOrder (state s') = [] /\
  getBlocks s' = [] /\
  selectedBlocks (state s') = [] /\
  focusedBlock (state s') = None /\
  history (state s') = [] /\
  historyIndex (state s') = -1 /\
  docHeader (state s') = docHeader (state s) /\
  subscribers s' = subscribers s /\
  undo eu s' = (Normal false, s') /\
  redo eu s' = (Normal false, s') /\
  indexConsistent (state s').
Proof.
  cbn zeta. unfold clear. repeat (split; [done|]).
  split; store_simpl.
  - apply NoDup_nil_2.
  - intros id. rewrite lookup_empty. split.
    + by intros ?%elem_of_nil.
    + by intros [? ?].
Qed.

(** ** Loading a document *)

Lemma addBlock_frame e blockData position s :
  docHeader (state (snd (addBlock e blockData position s)))
  = docHeader (state s) /\
  selectedBlocks (state (snd (addBlock e blockData position s)))
  = selectedBlocks (state s) /\
  focusedBlock (state (snd (addBlock e blockData position s)))
  = focusedBlock (state s) /\
  subscribers (snd (addBlock e blockData position s)) = subscribers s.
Proof.
  unfold addBlock. store_simpl.
  rewrite (saveToHistory_frame (nowHistory e)). by unfold docHeader.
Qed.

Lemma loadBlocks_frame l : forall es s,
  docHeader (state (loadBlocks es l s)) = docHeader (state s) /\
  selectedBlocks (state (loadBlocks es l s)) = selectedBlocks (state s) /\
  focusedBlock (state (loadBlocks es l s)) = focusedBlock (state s) /\
  subscribers (loadBlocks es l s) = subscribers s.
Proof.
  induction l as [|blockData rest IH]; intros es s; [done|].
  cbn [loadBlocks].
  destruct (IH (fun i => es (S i)) (snd (addBlock (es O) blockData None s)))
    as (-> & -> & -> & ->).
  apply addBlock_frame.
Qed.

Lemma deserialize_loaded e es d s :
  state (deserialize e es d s)
  = set_updatedAt (nowNotify e)
      (state
         (loadBlocks es (blocksToLoad d)
            (with_state (headerLoaded e d (state s)) s))) /\
  subscribers (deserialize e es d s) = subscribers s.
Proof.
  unfold deserialize, blocksToLoad, headerLoaded. rewrite state_notified.
  destruct (doc_blocks d) as [l|]; cbn [loadBlocks]; split; try done.
  rewrite subscribers_notified.
  match goal with
  | |- subscribers (loadBlocks es l ?s1) = _ =>
      by destruct (loadBlocks_frame l es s1) as (_ & _ & _ & ->)
  end.
Qed.

Lemma insertAll_is_Some {V} (l : list (string * V)) : forall m k,
  is_Some (insertAll l m !! k) <-> k ∈ l.*1 \/ is_Some (m !! k).
Proof.
  induction l as [|[k0 v0] rest IH]; intros m k.
  - cbn. split; [by right|]. intros [Hin|?]; [|done].
    by apply elem_of_nil in Hin.
  - unfold insertAll in *. cbn [fold_left fmap list_fmap].
    rewrite IH. cbn [fst snd]. rewrite lookup_insert_is_Some, elem_of_cons.
    destruct (decide (k0 = k)) as [->|Hne].
    + split; [intros _; by left; left | intros _; right; by left].
    + split.
      * intros [?|[?|[_ ?]]]; [left; by right | done | by right].
      * intros [[?|?]|?]; [congruence | by left | right; right; by split].
Qed.

(** X16.  [deserialize] replaces the blocks: whatever the store held,
    afterwards the ordering index lists one identity per loaded block, in
    input order (the block's [id] when it is a non-empty string, else the
    generated one), every listed identity is stored and every stored one
    is listed, and when these identities are pairwise distinct the index
    is consistent with the store.  Selection, focus and subscribers are
    not reset: they are as before the call, and so are the history and
    its cursor when the data holds no block. *)
Theorem deserialize_resets_blocks (e : Env) (es : nat -> Env) (d : DocData)
    (s : Store) :
  let l := blocksToLoad d in
  let s' := deserialize e es d s in
  blockOrder (state s') = (reloadEntries es l).*1 /\
  length (blockOrder (state s')) = length l /\
  (forall id, id ∈ blockOrder (state s') <-> is_Some (blocks (state s') !! id)) /\
  (NoDup (reloadEntries es l).*1 -> indexConsistent (state s')) /\
  selectedBlocks (state s') = selectedBlocks (state s) /\
  focusedBlock (state s') = focusedBlock (state s) /\
  subscribers s' = subscribers s /\
  (l = [] ->
   history (state s') = history (state s) /\
   historyIndex (state s') = historyIndex (state s)).
Proof.
  cbn zeta. destruct (deserialize_loaded e es d s) as [Hst Hsub].
  destruct (loadBlocks_state (blocksToLoad d) es
              (with_state (headerLoaded e d (state s)) s)) as (Ho & Hb & _).
  destruct (loadBlocks_frame (blocksToLoad d) es
              (with_state (headerLoaded e d (state s)) s))
    as (_ & Hsel & Hf & _).
  assert (Ho' : blockOrder (state (deserialize e es d s))
                = (reloadEntries es (blocksToLoad d)).*1).
  { rewrite Hst. proj. by rewrite Ho. }
  assert (Hb' : blocks (state (deserialize e es d s))
                = insertAll (reloadEntries es (blocksToLoad d)) ∅).
  { rewrite Hst. proj. by rewrite Hb. }
  assert (Hel : forall id,
            id ∈ (reloadEntries es (blocksToLoad d)).*1 <->
            is_Some (insertAll (reloadEntries es (blocksToLoad d)) ∅ !! id)).
  { intros id. rewrite insertAll_is_Some, lookup_empty.
    split; [by left|]. intros [?|[? ?]]; done. }
  split; [done|].
  split; [by rewrite Ho', length_fmap, length_reloadEntries|].
  split; [intros id; rewrite Ho', Hb'; apply Hel|].
  split.
  { intros Hnd. split; [by rewrite Ho'|].
    intros id. rewrite Ho', Hb'. apply Hel. }
  split; [rewrite Hst; proj; by rewrite Hsel|].
  split; [rewrite Hst; proj; by rewrite Hf|].
  split; [done|].
  intros Hnil. rewrite Hst, Hnil. by cbn [loadBlocks].
Qed.

Lemma deserialize_blocks_listed e es d s0 bs :
  doc_blocks d = Some (map persistBlock bs) -> reloadCoherent es bs ->
  orderedBlocks (state (deserialize e es d s0)) = map revived bs.
Proof.
  intros Hd Hco. destruct (deserialize_loaded e es d s0) as [Hst _].
  unfold orderedBlocks. rewrite Hst. proj.
  unfold blocksToLoad. rewrite Hd.
  match goal with
  | |- context [loadBlocks es ?l ?s1] =>
      destruct (loadBlocks_state l es s1) as (-> & -> & _)
  end.
  unfold headerLoaded. proj. cbn [app].
  rewrite (omap_lookup_entries _ _).
  - apply reloadEntries_values.
  - intros i k v Hi. eapply insertAll_lookup; [|done].
    by apply reloadEntries_functional.
Qed.

Lemma deserialize_fields e es d s :
  documentId (state (deserialize e es d s))
  = orString (doc_documentId d) (generatedId e) /\
  title (state (deserialize e es d s))
  = orString (doc_title d) "Untitled Document" /\
  version (state (deserialize e es d s)) = orString (doc_version d) "1.0.0" /\
  createdAt (state (deserialize e es d s))
  = orNumber (doc_createdAt d) (nowCreated e) /\
  metadata (state (deserialize e es d s)) = orObject (doc_metadata d) ∅ /\
  updatedAt (state (deserialize e es d s)) = nowNotify e.
Proof.
  destruct (deserialize_loaded e es d s) as [Hst _].
  destruct (loadBlocks_frame (blocksToLoad d) es
              (with_state (headerLoaded e d (state s)) s)) as (Hh & _).
  destruct (loadBlocks_state (blocksToLoad d) es
              (with_state (headerLoaded e d (state s)) s)) as (_ & _ & Hm).
  rewrite Hst. proj. unfold docHeader in Hh.
  injection Hh as H1 H2 H3 H4 H5.
  repeat split; try (etransitivity; [eassumption | reflexivity]).
Qed.

Lemma orString_truthy (x d : string) : x <> EmptyString -> orString (Some x) d = x.
Proof.
  intros H. unfold orString, truthyString.
  by destruct (decide (x = EmptyString)).
Qed.

Lemma orNumber_truthy (x d : Z) : x <> 0 -> orNumber (Some x) d = x.
Proof.
  intros H. unfold orNumber, truthyNumber.
  destruct (x =? 0) eqn:E; [apply Z.eqb_eq in E; lia | done].
Qed.

(** X17.  Loading a saved document and serialising the store gives the
    saved document back, except for [updatedAt], which is the time of
    the load notification and not the saved one.  This holds for a saved
    document with non-empty identity, title and version, a creation time
    other than 0 and blocks with all six persistable fields, provided
    blocks that load under one identity have the same fields. *)
Theorem deserialize_serialize_roundtrip (e : Env) (es : nat -> Env)
    (i t v : string) (c u : Z) (m : gmap string MetaValue) (bs : list Block)
    (s0 : Store) :
  i <> EmptyString -> t <> EmptyString -> v <> EmptyString -> c <> 0 ->
  reloadCoherent es bs ->
  serialize (deserialize e es (savedDocument i t v c u m bs) s0)
  = withUpdatedAt (nowNotify e) (savedDocument i t v c u m bs).
Proof.
  intros Hi Ht Hv Hc Hco.
  unfold serialize, serializeState.
  rewrite (deserialize_blocks_listed e es (savedDocument i t v c u m bs) s0
             bs eq_refl Hco).
  destruct (deserialize_fields e es (savedDocument i t v c u m bs) s0)
    as (-> & -> & -> & -> & -> & ->).
  cbn [savedDocument doc_documentId doc_title doc_version doc_createdAt
       doc_metadata orObject].
  rewrite !orString_truthy, orNumber_truthy by done.
  unfold withUpdatedAt, savedDocument. cbn. do 2 f_equal.
  rewrite map_map. apply map_ext. intros b. apply persistBlock_revived.
Qed.

Lemma deserialize_serialize_roundtrip_witness :
  serialize
    (deserialize (exampleEnv 9 "doc_9") (fun _ => exampleEnv 8 "block_8")
       (savedDocument "doc_1" "Notes" "2.0" 1 7 ∅ (getBlocks storeAB))
       storeAA)
  = withUpdatedAt 9
      (savedDocument "doc_1" "Notes" "2.0" 1 7 ∅ (getBlocks storeAB)).
Proof.
  apply (deserialize_serialize_roundtrip (exampleEnv 9 "doc_9")
           (fun _ => exampleEnv 8 "block_8") "doc_1" "Notes" "2.0" 1 7 ∅
           (getBlocks storeAB) storeAA); try done.
  intros j k bj bk Hj Hk Hkey.
  destruct j as [|[|j]]; destruct k as [|[|k]];
    vm_compute in Hj, Hk; try discriminate;
    injection Hj as <-; injection Hk as <-;
    first [reflexivity | vm_compute in Hkey; discriminate].
Defined.

(** X18.  [deserialize] takes identity, title and version from the data
    when they are non-empty strings and otherwise the generated
    identity, [Untitled Document] and [1.0.0]; the creation time when it
    is given and not 0, otherwise the clock reading; the metadata when
    given, otherwise an empty record.  The update time of the data is
    never kept: after the call it is the time of the notification. *)
Theorem deserialize_header (e : Env) (es : nat -> Env) (d : DocData)
    (s : Store) :
  let st' := state (deserialize e es d s) in
  documentId st' = orString (doc_documentId d) (generatedId e) /\
  (doc_title d = None \/ doc_title d = Some EmptyString ->
   title st' = "Untitled Document") /\
  (forall t, doc_title d = Some t -> t <> EmptyString -> title st' = t) /\
  (doc_version d = None \/ doc_version d = Some EmptyString ->
   version st' = "1.0.0") /\
  (forall v, doc_version d = Some v -> v <> EmptyString -> version st' = v) /\
  (doc_createdAt d = None \/ doc_createdAt d = Some 0 ->
   createdAt st' = nowCreated e) /\
  (forall c, doc_createdAt d = Some c -> c <> 0 -> createdAt st' = c) /\
  metadata st' = default ∅ (doc_metadata d) /\
  updatedAt st' = nowNotify e.
Proof.
  cbn zeta.
  destruct (deserialize_fields e es d s) as (-> & -> & -> & -> & -> & ->).
  split; [done|].
  split; [intros [->| ->]; done|].
  split; [intros t -> Ht; by apply orString_truthy|].
  split; [intros [->| ->]; done|].
  split; [intros v -> Hv; by apply orString_truthy|].
  split; [intros [->| ->]; done|].
  split; [intros c -> Hc; by apply orNumber_truthy|].
  split; [by destruct (doc_metadata d)|done].
Qed.

(** ** Listing and counting the blocks *)

Lemma orderedBlocks_Permutation st :
  indexConsistent st -> orderedBlocks st ≡ₚ (map_to_list (blocks st)).*2.
Proof.
  intros [Hnd Hel]. unfold orderedBlocks.
  assert (Hp : blockOrder st ≡ₚ (map_to_list (blocks st)).*1).
  { apply NoDup_Permutation; [done | apply NoDup_fst_map_to_list |].
    intros id. rewrite Hel, list_elem_of_fmap. split.
    - intros [b Hb]. exists (id, b). split; [done|].
      by apply elem_of_map_to_list.
    - intros ([k b] & -> & Hin). apply elem_of_map_to_list in Hin.
      by exists b. }
  rewrite Hp. rewrite (omap_lookup_entries _ _); [done|].
  intros i k v Hi. apply elem_of_map_to_list.
  by eapply list_elem_of_lookup_2.
Qed.

Lemma length_omap_le {A B} (f : A -> option B) (l : list A) :
  (length (omap f l) <= length l)%nat.
Proof.
  induction l as [|x rest IH]; [done|].
  cbn. destruct (f x); simpl; lia.
Qed.

(** X19.  [getBlocks()] lists the stored blocks of the identities in the
    ordering index, in index order, and skips identities without a
    stored block, so it is never longer than the index.  When index and
    store are consistent it lists every stored block exactly once: it is
    a rearrangement of the store's values and as long as the store is
    large. *)
Theorem getBlocks_lists_store (s : Store) :
  (length (getBlocks s) <= length (blockOrder (state s)))%nat /\
  (forall b, b ∈ getBlocks s <->
     exists id, id ∈ blockOrder (state s) /\
                blocks (state s) !! id = Some b) /\
  (indexConsistent (state s) ->
   getBlocks s ≡ₚ (map_to_list (blocks (state s))).*2 /\
   length (getBlocks s) = size (blocks (state s)) /\
   length (getBlocks s) = length (blockOrder (state s))).
Proof.
  unfold getBlocks. split; [apply length_omap_le|].
  split; [intros b; apply list_elem_of_omap|].
  intros Hcons.
  pose proof (orderedBlocks_Permutation _ Hcons) as Hp.
  split; [done|].
  assert (Hlen : length (orderedBlocks (state s)) = size (blocks (state s))).
  { by rewrite Hp, length_fmap, length_map_to_list. }
  split; [done|]. rewrite Hlen. symmetry.
  by destruct (indexConsistent_matches _ Hcons).
Qed.

Lemma getBlocks_lists_store_witness :
  length (getBlocks storeAB) = size (blocks (state storeAB)).
Proof.
  apply (getBlocks_lists_store storeAB), storeAB_indexConsistent.
Defined.









(** ** Consistency of index and store under the other calls *)

(** X21.  Every call other than [undo], [redo], [deserialize] and an
    [addBlock] that reuses a stored identity keeps the ordering index and
    the block store consistent: this covers [updateBlock], [clear], a
    bare [saveToHistory] and all selection, focus, title, metadata,
    notification and subscription calls besides the three index
    operations. *)
Theorem perform_keeps_index (op : Operation) (s : Store) :
  keepsIndex op s -> indexConsistent (state s) ->
  indexConsistent (state (perform op s)).
Proof.
  intros Hop Hcons. destruct op; cbn [keepsIndex perform] in *; try done;
    try (eapply indexConsistent_ext; [| |exact Hcons]; reflexivity).
  - by apply addBlock_indexConsistent.
  - by apply removeBlock_indexConsistent.
  - by apply updateBlock_indexConsistent.
  - by apply moveBlock_indexConsistent.
  - eapply indexConsistent_ext; [| |exact Hcons];
      unfold selectBlock; store_simpl; by destruct multiSelect.
  - eapply indexConsistent_ext; [| |exact Hcons]; proj.
    + apply saveToHistory_blocks.
    + apply saveToHistory_blockOrder.
  - unfold clear. store_simpl. split; proj.
    + apply NoDup_nil_2.
    + intros id. rewrite lookup_empty. split.
      * by intros ?%elem_of_nil.
      * by intros [? ?].
  - eapply indexConsistent_ext; [| |exact Hcons];
      unfold subscribe; by case_match.
Qed.

Lemma perform_keeps_index_witness :
  indexConsistent
    (state
       (perform
          (OpUpdateBlock (exampleEnv 4 "g") "a" (exampleData "b" "edited"))
          storeAB)).
Proof.
  apply perform_keeps_index; [exact I | apply storeAB_indexConsistent].
Defined.

(** ** Notifications *)

Lemma effects_notified e ch s :
  effects (notified e ch s)
  = effects s
    ++ notificationEvents (set_updatedAt (nowNotify e) (state s)) ch
         (subscribers s).
Proof.
  unfold notified, notify. proj. by rewrite notifySubscribers_run.
Qed.

Lemma callsTo_app key (l1 l2 : list Event) :
  callsTo key (l1 ++ l2) = (callsTo key l1 + callsTo key l2)%nat.
Proof. unfold callsTo. by rewrite List.filter_app, length_app. Qed.

Lemma callsTo_notificationEvents key st ch subs :
  callsTo key (notificationEvents st ch subs) = subscribedCount key subs.
Proof.
  unfold callsTo, subscribedCount, notificationEvents.
  induction subs as [|sub rest IH]; [done|].
  cbn [flat_map]. rewrite List.filter_app, length_app, IH.
  cbn [List.filter isCallTo].
  destruct (Nat.eqb (sub_key sub) key);
    destruct (callback sub st ch); cbn; lia.
Qed.

Lemma callsTo_notified key e ch s :
  callsTo key (effects (notified e ch s))
  = (callsTo key (effects s) + subscribedCount key (subscribers s))%nat.
Proof.
  by rewrite effects_notified, callsTo_app, callsTo_notificationEvents.
Qed.

(** X22.  A mutation that takes effect runs exactly one notification
    cycle, after the history entry is recorded: each subscriber is called
    once, with the state the call leaves (entry recorded, update time
    set) and the change description of the mutation, which for
    [moveBlock] carries the index the block came from.  The subscriber
    set is as before. *)
Theorem mutation_notifies_once (op : Operation) (s : Store) :
  mutationRecords op s ->
  effects (perform op s)
  = effects s
    ++ notificationEvents (state (perform op s)) (mutationChange op s)
         (subscribers s) /\
  (forall key,
     callsTo key (effects (perform op s))
     = (callsTo key (effects s) + subscribedCount key (subscribers s))%nat) /\
  subscribers (perform op s) = subscribers s.
Proof.
  intros Hop.
  assert (H : effects (perform op s)
              = effects s
                ++ notificationEvents (state (perform op s))
                     (mutationChange op s) (subscribers s) /\
              subscribers (perform op s) = subscribers s).
  { destruct op; try done; cbn [mutationRecords perform mutationChange] in *.
    - unfold addBlock. proj. by rewrite effects_notified.
    - destruct Hop as [b Hb]. unfold removeBlock. rewrite Hb. proj.
      by rewrite effects_notified.
    - destruct Hop as [b Hb]. rewrite (updateBlock_state _ _ _ _ b Hb).
      proj. by rewrite effects_notified.
    - destruct (moveBlock_found e blockId newPosition s Hop)
        as (l1 & l2 & _ & _ & -> & ->).
      proj. by rewrite effects_notified. }
  destruct H as [He Hs]. split; [done|]. split; [|done].
  intros key. by rewrite He, callsTo_app, callsTo_notificationEvents.
Qed.

Lemma mutation_notifies_once_witness :
  callsTo 2
    (effects (perform (OpMoveBlock (exampleEnv 6 "g") "b" 0) storeObserved))
  = (callsTo 2 (effects storeObserved)
     + subscribedCount 2 (subscribers storeObserved))%nat.
Proof.
  apply (mutation_notifies_once (OpMoveBlock (exampleEnv 6 "g") "b" 0)
           storeObserved).
  vm_compute. apply list_elem_of_further, list_elem_of_here.
Defined.

Lemma loadBlocks_calls key l : forall es s,
  callsTo key (effects (loadBlocks es l s))
  = (callsTo key (effects s)
     + length l * subscribedCount key (subscribers s))%nat.
Proof.
  induction l as [|blockData rest IH]; intros es s; cbn [loadBlocks length].
  - lia.
  - rewrite IH.
    destruct (addBlock_frame (es O) blockData None s) as (_ & _ & _ & ->).
    unfold addBlock. proj. rewrite callsTo_notified. proj. lia.
Qed.

(** X23.  [deserialize] runs one notification cycle per loaded block and
    one more for the loaded document: each subscriber is called once more
    than there are blocks in the data. *)
Theorem deserialize_notifies_per_block (e : Env) (es : nat -> Env)
    (d : DocData) (s : Store) (key : nat) :
  callsTo key (effects (deserialize e es d s))
  = (callsTo key (effects s)
     + (length (blocksToLoad d) + 1) * subscribedCount key (subscribers s))%nat.
Proof.
  unfold deserialize, blocksToLoad. rewrite callsTo_notified.
  destruct (doc_blocks d) as [l|].
  - rewrite loadBlocks_calls. proj.
    match goal with
    | |- context [subscribers (loadBlocks es l ?s1)] =>
        destruct (loadBlocks_frame l es s1) as (_ & _ & _ & ->)
    end.
    proj. lia.
  - proj. cbn [length]. lia.
Qed.

(** ** Subscribing and unsubscribing *)

Lemma subscribedCount_app key (l1 l2 : list Subscriber) :
  subscribedCount key (l1 ++ l2)
  = (subscribedCount key l1 + subscribedCount key l2)%nat.
Proof. unfold subscribedCount. by rewrite List.filter_app, length_app. Qed.

Lemma subscribedCount_none key subs :
  existsb (fun x => Nat.eqb (sub_key x) key) subs = false ->
  subscribedCount key subs = 0%nat.
Proof.
  unfold subscribedCount. induction subs as [|x rest IH]; [done|].
  cbn. destruct (Nat.eqb (sub_key x) key); [done|]. apply IH.
Qed.

Lemma subscribedCount_in key subs :
  existsb (fun x => Nat.eqb (sub_key x) key) subs = false ->
  key ∉ map sub_key subs.
Proof.
  induction subs as [|x rest IH]; [intros _; apply not_elem_of_nil|].
  cbn. destruct (Nat.eqb (sub_key x) key) eqn:E; [done|].
  intros H [Heq|Hin]%elem_of_cons.
  - apply Nat.eqb_neq in E. congruence.
  - by apply IH.
Qed.

Lemma subscribedCount_once key subs :
  NoDup (map sub_key subs) ->
  existsb (fun x => Nat.eqb (sub_key x) key) subs = true ->
  subscribedCount key subs = 1%nat.
Proof.
  induction subs as [|x rest IH]; [done|].
  cbn [map existsb]. intros [Hn Hnd]%NoDup_cons.
  change (subscribedCount key (x :: rest))
    with (subscribedCount key ([x] ++ rest)).
  rewrite subscribedCount_app. unfold subscribedCount at 1. cbn.
  destruct (Nat.eqb (sub_key x) key) eqn:E.
  - intros _. apply Nat.eqb_eq in E. subst key.
    destruct (existsb (fun y => Nat.eqb (sub_key y) (sub_key x)) rest) eqn:E2.
    + exfalso. apply Hn. apply existsb_exists in E2 as (y & Hy & Heq).
      apply Nat.eqb_eq in Heq. rewrite <- Heq.
      apply list_elem_of_In, in_map. exact Hy.
    + by rewrite subscribedCount_none.
  - cbn. intros Hex. by rewrite IH.
Qed.

Lemma subscribe_NoDup sub s :
  NoDup (map sub_key (subscribers s)) ->
  NoDup (map sub_key (subscribers (subscribe sub s))).
Proof.
  intros Hnd. unfold subscribe.
  destruct (existsb _ _) eqn:E; [done|]. proj.
  rewrite map_app. apply NoDup_app. split; [done|]. split.
  - intros k Hk ->%list_elem_of_singleton.
    by apply (subscribedCount_in _ _ E).
  - apply NoDup_singleton.
Qed.

Lemma unsubscribe_NoDup key s :
  NoDup (map sub_key (subscribers s)) ->
  NoDup (map sub_key (subscribers (unsubscribe key s))).
Proof.
  unfold unsubscribe. proj. generalize (subscribers s).
  induction l as [|x rest IH]; [done|].
  cbn [map List.filter]. intros [Hn Hnd]%NoDup_cons.
  destruct (negb _); [|by apply IH].
  cbn [map]. apply NoDup_cons. split; [|by apply IH].
  intros Hin. apply Hn.
  apply list_elem_of_In, in_map_iff in Hin as (y & Hy & Hin).
  apply filter_In in Hin as [Hin _].
  rewrite <- Hy. by apply list_elem_of_In, in_map.
Qed.

Lemma perform_subscribers op s :
  (forall sub, op <> OpSubscribe sub) -> (forall key, op <> OpUnsubscribe key) ->
  subscribers (perform op s) = subscribers s.
Proof.
  intros Hs Hu. destruct op; cbn [perform]; try reflexivity.
  - unfold removeBlock. case_match; reflexivity.
  - unfold updateBlock. case_match; reflexivity.
  - unfold moveBlock. case_match; reflexivity.
  - unfold undo. case_match; [reflexivity|].
    destruct (applyHistoryItem _ _ _); reflexivity.
  - unfold redo. case_match; [reflexivity|].
    destruct (applyHistoryItem _ _ _); reflexivity.
  - apply deserialize_loaded.
  - by destruct (Hs sub).
  - by destruct (Hu key).
Qed.

Lemma reachable_subscribers_NoDup s :
  reachable s -> NoDup (map sub_key (subscribers s)).
Proof.
  induction 1 as [e|op s _ IH]; [apply NoDup_nil_2|].
  destruct op;
    try (rewrite perform_subscribers; [exact IH | done | done]).
  - by apply subscribe_NoDup.
  - by apply unsubscribe_NoDup.
Qed.

(** X24.  In a reachable store, after [subscribe] the callback is in the
    subscriber set exactly once, whether or not it was there before:
    subscribing it again changes nothing, the other subscribers and the
    state are untouched, and every notification calls it once. *)
Theorem subscribe_once (sub : Subscriber) (s : Store) :
  reachable s ->
  let s' := subscribe sub s in
  subscribedCount (sub_key sub) (subscribers s') = 1%nat /\
  (forall key, key <> sub_key sub ->
     subscribedCount key (subscribers s') = subscribedCount key (subscribers s)) /\
  subscribe sub s' = s' /\
  state s' = state s /\
  (forall e ch,
     callsTo (sub_key sub) (effects (notified e ch s'))
     = (callsTo (sub_key sub) (effects s) + 1)%nat).
Proof.
  intros Hr. cbn zeta.
  pose proof (reachable_subscribers_NoDup s Hr) as Hnd.
  assert (Hone : subscribedCount (sub_key sub) (subscribers (subscribe sub s))
                 = 1%nat).
  { unfold subscribe. destruct (existsb _ _) eqn:E.
    - by apply subscribedCount_once.
    - proj. rewrite subscribedCount_app, subscribedCount_none by done.
      unfold subscribedCount. cbn. by rewrite Nat.eqb_refl. }
  assert (Heff : effects (subscribe sub s) = effects s).
  { unfold subscribe. by case_match. }
  split; [done|]. split; [|split; [|split]].
  - intros key Hk. unfold subscribe. destruct (existsb _ _); [done|].
    proj. rewrite subscribedCount_app. unfold subscribedCount at 2. cbn.
    destruct (Nat.eqb (sub_key sub) key) eqn:E; [|cbn; lia].
    apply Nat.eqb_eq in E. congruence.
  - unfold subscribe at 1.
    destruct (existsb _ (subscribers (subscribe sub s))) eqn:E; [done|].
    apply subscribedCount_none in E. lia.
  - unfold subscribe. by case_match.
  - intros e ch. by rewrite callsTo_notified, Heff, Hone.
Qed.

Lemma subscribe_once_witness :
  subscribedCount 2 (subscribers (subscribe failingObserver storeObserved))
  = 1%nat.
Proof.
  assert (Hr : reachable storeObserved).
  { apply (reachable_step (OpSubscribe failingObserver)).
    apply (reachable_step (OpSubscribe quietObserver)).
    apply storeAB_reachable. }
  pose proof (subscribe_once failingObserver storeObserved Hr) as H.
  cbn zeta in H. destruct H as (H1 & _). exact H1.
Defined.

Lemma filter_keeps_others key (subs : list Subscriber) :
  subscribedCount key subs = 0%nat ->
  List.filter (fun x => negb (Nat.eqb (sub_key x) key)) subs = subs.
Proof.
  unfold subscribedCount. induction subs as [|x rest IH]; [done|].
  cbn. destruct (Nat.eqb (sub_key x) key); cbn; [lia|].
  intros H. by rewrite IH.
Qed.

Lemma subscribedCount_unsubscribe key k (subs : list Subscriber) :
  subscribedCount k
    (List.filter (fun x => negb (Nat.eqb (sub_key x) key)) subs)
  = if Nat.eqb k key then 0%nat else subscribedCount k subs.
Proof.
  unfold subscribedCount. induction subs as [|x rest IH].
  - cbn. by destruct (Nat.eqb k key).
  - cbn. destruct (Nat.eqb (sub_key x) key) eqn:E1; cbn.
    + rewrite IH. destruct (Nat.eqb k key) eqn:E2; [done|].
      destruct (Nat.eqb (sub_key x) k) eqn:E3; [|done].
      apply Nat.eqb_eq in E1, E3. apply Nat.eqb_neq in E2. congruence.
    + destruct (Nat.eqb (sub_key x) k) eqn:E3; cbn; rewrite IH;
        destruct (Nat.eqb k key) eqn:E2; try done.
      apply Nat.eqb_eq in E2, E3. apply Nat.eqb_neq in E1. congruence.
Qed.

(** X25.  After the function [subscribe] returned is called, the callback
    is out of the subscriber set and no notification calls it; the other
    subscribers and the state are untouched.  Unsubscribing a callback
    that was subscribed to a store that did not hold it gives that store
    back. *)
Theorem unsubscribe_removes (key : nat) (s : Store) :
  let s' := unsubscribe key s in
  subscribedCount key (subscribers s') = 0%nat /\
  (forall k, k <> key ->
     subscribedCount k (subscribers s') = subscribedCount k (subscribers s)) /\
  (forall e ch,
     callsTo key (effects (notified e ch s')) = callsTo key (effects s)) /\
  state s' = state s /\
  (forall sub, sub_key sub = key ->
     subscribedCount key (subscribers s) = 0%nat ->
     unsubscribe key (subscribe sub s) = s).
Proof.
  cbn zeta.
  assert (H0 : subscribedCount key (subscribers (unsubscribe key s)) = 0%nat).
  { unfold unsubscribe. proj. rewrite subscribedCount_unsubscribe.
    by rewrite Nat.eqb_refl. }
  split; [done|]. split; [|split; [|split; [done|]]].
  - intros k Hk. unfold unsubscribe. proj.
    rewrite subscribedCount_unsubscribe.
    destruct (Nat.eqb k key) eqn:E; [|done].
    apply Nat.eqb_eq in E. congruence.
  - intros e ch. rewrite callsTo_notified, H0.
    unfold unsubscribe. proj. lia.
  - intros sub Hkey Hnone. unfold subscribe.
    destruct (existsb _ _) eqn:E.
    + unfold unsubscribe. rewrite filter_keeps_others by done.
      by destruct s.
    + unfold unsubscribe. proj. rewrite List.filter_app.
      rewrite filter_keeps_others by done.
      cbn. rewrite Hkey, Nat.eqb_refl. cbn. rewrite app_nil_r.
      by destruct s.
Qed.

(** ** What the serialised document leaves out *)

(** X26.  Selecting, deselecting, clearing the selection and focusing
    change the serialised document in its update time only: every other
    field of the [serialize()] output, the blocks included, is as before
    the call. *)
Theorem selection_not_serialized (op : Operation) (s : Store) :
  isSelectionOp op ->
  serialize (perform op s)
  = withUpdatedAt (selectionOpTime op) (serialize s) /\
  getBlocks (perform op s) = getBlocks s.
Proof.
  intros Hop.
  destruct op; try done; cbn [perform selectionOpTime];
    unfold serialize, getBlocks; rewrite withUpdatedAt_serializeState;
    try (split; reflexivity).
  unfold selectBlock. store_simpl. by destruct multiSelect.
Qed.

Lemma selection_not_serialized_witness :
  getBlocks (perform (OpFocusBlock (exampleEnv 4 "g") "zzz") storeAB)
  = getBlocks storeAB.
Proof.
  apply (selection_not_serialized (OpFocusBlock (exampleEnv 4 "g") "zzz")
           storeAB).
  exact I.
Defined.

(** ** Replaying a move of an identity that is not in the index *)

Lemma spliceDelete1_minus_one {A} (l : list A) :
  spliceDelete1 (-1) l = removelast l.
Proof.
  unfold spliceDelete1. rewrite removelast_firstn_len.
  rewrite clampIndex_negative by lia.
  destruct l as [|x rest]; [done|].
  replace (Z.to_nat (Z.max (Z.of_nat (length (x :: rest)) + -1) 0))
    with (Nat.pred (length (x :: rest))) by (simpl; lia).
  replace (S (Nat.pred (length (x :: rest)))) with (length (x :: rest))
    by (simpl; lia).
  by rewrite drop_all, app_nil_r.
Qed.

(** X27.  [applyHistoryItem] on a [move-block] entry whose identity is
    not in the ordering index does not leave the index alone: [indexOf]
    yields -1, so the last identity of the index is taken out and the
    entry's identity is put in at the recorded position.  The block store
    is untouched, so in an index without duplicates the identity that was
    last is no longer listed although its block is still stored. *)
Theorem replay_move_of_absent (blockId : string) (from to now : Z)
    (reverse : bool) (st : State) :
  blockId ∉ blockOrder st ->
  exists st',
    applyHistoryItem (Some (mkHistoryItem (MoveBlockData blockId from to) now))
      reverse st = Normal st' /\
    blockOrder st'
    = spliceInsert (if reverse then from else to) blockId
        (removelast (blockOrder st)) /\
    blocks st' = blocks st /\
    blockId ∈ blockOrder st' /\
    (forall x, NoDup (blockOrder st) -> last (blockOrder st) = Some x ->
       x ∉ blockOrder st').
Proof.
  intros Hn. eexists. split; [reflexivity|].
  unfold replay. proj. rewrite indexOf_notin by done.
  rewrite spliceDelete1_minus_one.
  split; [done|]. split; [done|]. split.
  - rewrite spliceInsert_Permutation. left.
  - intros x Hnd Hlast. rewrite spliceInsert_Permutation.
    destruct (blockOrder st) as [|y rest] eqn:Ho using rev_ind; [done|].
    rewrite last_snoc in Hlast. injection Hlast as ->.
    rewrite removelast_last.
    apply NoDup_app in Hnd as (_ & Hdisj & _).
    intros [->|Hin]%elem_of_cons.
    + apply Hn. apply elem_of_app. right. left.
    + apply (Hdisj x Hin). left.
Qed.

Lemma replay_move_of_absent_witness :
  exists st',
    applyHistoryItem (Some (mkHistoryItem (MoveBlockData "c" 0 1) 9)) true
      (state storeAB) = Normal st' /\
    blockOrder st' = spliceInsert 0 "c" (removelast (blockOrder (state storeAB))).
Proof.
  destruct (replay_move_of_absent "c" 0 1 9 true (state storeAB))
    as (st' & H1 & H2 & _).
  - vm_compute. intros Hin.
    apply elem_of_cons in Hin as [Hin|Hin]; [discriminate|].
    apply elem_of_cons in Hin as [Hin|Hin]; [discriminate|].
    by apply elem_of_nil in Hin.
  - exists st'. by split.
Defined.

(** The case above is reachable: a load does not reset the history, so
    after a move, a load of a document without blocks and [undo()], the
    index lists an identity that the block store does not hold. *)
Example undo_after_load_orphans :
  reachable storeLoadedEmptyUndone /\
  fst (undo (exampleEnv 6 "g") storeLoadedEmpty) = Normal true /\
  blockOrder (state storeLoadedEmpty) = [] /\
  blockOrder (state storeLoadedEmptyUndone) = ["b"] /\
  size (blocks (state storeLoadedEmptyUndone)) = 0%nat.
Proof.
  split.
  - apply (reachable_step (OpUndo (exampleEnv 6 "g"))).
    apply (reachable_step
             (OpDeserialize (exampleEnv 5 "doc_5")
                (fun _ => exampleEnv 5 "block_5")
                (mkDocData None None None None None None None))).
    apply reachable_step, storeAB_reachable.
  - repeat split; by vm_compute.
Qed.
